(** * Figma plugins: Bento layout generator and Color Style Generator

    A shallow embedding of [src/Bento/code.ts].

    - JavaScript numbers are IEEE-754 binary64 values; they are embedded as
      Rocq's primitive [float]s, whose operations are the same binary64
      operations with round-to-nearest-even, so the colour arithmetic below
      is bit-exact.
    - Numbers that only ever hold integers (parsed channels, grid indices)
      are embedded as [Z].
    - Strings are [string]s; the host document ([figma]) is an explicit
      record threaded through the message handler. *)

From Stdlib Require Import ZArith List Bool Lia String Ascii Floats.
Import ListNotations.

Set Warnings "-inexact-float".

Local Open Scope Z_scope.

(* ================================================================== *)
(** * JavaScript built-ins used by the plugin *)
(* ================================================================== *)

Module JS.

Local Open Scope float_scope.

(** 2^52: every binary64 value of magnitude at least 2^52 is integral, and
    adding 2^52 to a smaller non-negative value rounds it to an integer
    (ties to even). *)
Definition two52 : float := 4503599627370496.

(** [Math.round]: the integral value closest to [x], ties towards +infinity;
    NaN, the infinities and both zeros are returned unchanged, and negative
    values that round to zero give -0. *)
Definition Math_round (x : float) : float :=
  if abs x <? two52 then
    if 0 <? x then
      let t := (x + two52) - two52 in
      if x - t =? 0.5 then t + 1 else t
    else if x <? 0 then
      let a := - x in
      let t := (a + two52) - two52 in
      - (if t - a =? 0.5 then t - 1 else t)
    else x
  else x.

(** [Math.max] and [Math.min] of two numbers: NaN if either is NaN, and +0
    is larger than -0. *)
Definition Math_max2 (x y : float) : float :=
  if x <? y then y
  else if y <? x then x
  else if x =? y then (if x =? 0 then x + y else x)
  else nan.

Definition Math_min2 (x y : float) : float :=
  if x <? y then x
  else if y <? x then y
  else if x =? y then (if x =? 0 then - (- x + - y) else x)
  else nan.

(** The three-argument calls [Math.max(r, g, b)] and [Math.min(r, g, b)]
    scan their arguments from the left. *)
Definition Math_max (x y z : float) : float := Math_max2 (Math_max2 x y) z.
Definition Math_min (x y z : float) : float := Math_min2 (Math_min2 x y) z.

Definition Math_abs (x : float) : float := abs x.

(** The Number holding the integer [z] (exact for |z| < 2^53). *)
Definition Number (z : Z) : float :=
  if (z <? 0)%Z then - of_uint63 (Uint63.of_Z (- z))
  else of_uint63 (Uint63.of_Z z).

(** [ToInt32] on an integer, and the [<<] operator on integers. *)
Definition ToInt32 (z : Z) : Z := ((z + 2 ^ 31) mod 2 ^ 32 - 2 ^ 31)%Z.
Definition shl (x n : Z) : Z := ToInt32 (Z.shiftl (ToInt32 x) (n mod 32)).

End JS.

Import JS.

(* ================================================================== *)
(** * Bento layout generator: the grid preset *)
(* ================================================================== *)

Module Bento.

(** A cell definition in the bento composition. *)
Record CellSpan := mkCell
  { row : Z; (* 0-based *)
    col : Z; (* 0-based *)
    rowSpan : Z;
    colSpan : Z }.

Record Preset := mkPreset
  { rows : Z; cols : Z; cells : list CellSpan }.

(** [Array.from({ length: n }, (_, i) => f i)] for an integer [n]: the
    array [f 0, ..., f (n - 1)], which is empty when [n] is not positive.
    An array has at most 2^32 - 1 elements: a larger length throws a
    RangeError, which is [None].  Arrays are modelled as lists. *)
Definition Array_from {A} (n : Z) (f : Z -> A) : option (list A) :=
  if 2 ^ 32 <=? n then None
  else Some (map (fun i => f (Z.of_nat i)) (seq 0 (Z.to_nat n))).

(** [PRESETS.grid].  The index [i] is not negative: [Math.floor(i / c)] is
    [Z.div], which rounds down, and [i % c] is [Z.rem], which takes the
    sign of [i].  The call throws when [Array.from] does. *)
Definition grid (r c : Z) : option Preset :=
  match
    Array_from (r * c) (fun i =>
      {| row := i / c; col := Z.rem i c; rowSpan := 1; colSpan := 1 |})
  with
  | Some cells => Some {| rows := r; cols := c; cells := cells |}
  | None => None
  end.

End Bento.

(* ================================================================== *)
(** * Color Style Generator: colour conversion utilities *)
(* ================================================================== *)

Local Open Scope string_scope.
Local Open Scope Z_scope.

(** An RGB colour with integer channels, as produced by [hexToRgb]. *)
Record RGB := mkRGB { red : Z; green : Z; blue : Z }.

(** ** Regular expressions

    Both patterns of [hexToRgb] are anchored sequences of an optional
    character and of capturing character classes; [exec] is the
    backtracking matcher for such sequences. *)

(** ASCII upper-casing: the canonicalisation used by the [i] flag. *)
Definition canonicalize (c : ascii) : ascii :=
  let n := nat_of_ascii c in
  if ((97 <=? n) && (n <=? 122))%nat then ascii_of_nat (n - 32) else c.

(** Members of the class [[a-f\d]]. *)
Definition class_af_d : list ascii :=
  list_ascii_of_string "abcdef0123456789".

(** [c] matches [[a-f\d]] under the [i] flag. *)
Definition matches_af_d_i (c : ascii) : bool :=
  existsb (fun x => Ascii.eqb (canonicalize x) (canonicalize c)) class_af_d.

Inductive atom :=
| Opt (c : ascii)      (* c? *)
| HexClass.            (* ([a-f\d]), capturing *)

(** [exec p s]: match the whole of [s] against [^p$]; the result lists the
    captured characters. *)
Fixpoint exec (p : list atom) (s : string) : option (list ascii) :=
  match p with
  | [] => match s with EmptyString => Some [] | _ => None end
  | Opt c :: p' =>
      match s with
      | String c' s' =>
          if Ascii.eqb c c' then
            match exec p' s' with
            | Some caps => Some caps
            | None => exec p' s
            end
          else exec p' s
      | EmptyString => exec p' s
      end
  | HexClass :: p' =>
      match s with
      | String c' s' =>
          if matches_af_d_i c' then option_map (cons c') (exec p' s') else None
      | EmptyString => None
      end
  end.

(** [/^#?([a-f\d])([a-f\d])([a-f\d])$/i] *)
Definition shorthandRegex : list atom :=
  [Opt "#"; HexClass; HexClass; HexClass]%char.

(** [/^#?([a-f\d]{2})([a-f\d]{2})([a-f\d]{2})$/i] *)
Definition fullRegex : list atom :=
  [Opt "#"; HexClass; HexClass; HexClass; HexClass; HexClass; HexClass]%char.

(** Value of a digit in radix 16, if it is one. *)
Definition hex_digit_value (c : ascii) : option Z :=
  let n := Z.of_nat (nat_of_ascii c) in
  if (48 <=? n) && (n <=? 57) then Some (n - 48)
  else if (97 <=? n) && (n <=? 102) then Some (n - 87)
  else if (65 <=? n) && (n <=? 70) then Some (n - 55)
  else None.

(** [parseInt(s, 16)] on a string of digits: the value of the longest
    prefix of hexadecimal digits ([None] stands for NaN). *)
Fixpoint parseInt16_from (acc : option Z) (s : list ascii) : option Z :=
  match s with
  | [] => acc
  | c :: s' =>
      match hex_digit_value c with
      | Some d =>
          parseInt16_from
            (Some (16 * match acc with Some a => a | None => 0 end + d)) s'
      | None => acc
      end
  end.

Definition parseInt16 (s : list ascii) : option Z := parseInt16_from None s.

(** [hex.replace(shorthandRegex, (m, r, g, b) => r + r + g + g + b + b)] *)
Definition expand_shorthand (hex : string) : string :=
  match exec shorthandRegex hex with
  | Some [r; g; b] => string_of_list_ascii [r; r; g; g; b; b]
  | _ => hex
  end.

Definition hexToRgb (hex : string) : option RGB :=
  let hex := expand_shorthand hex in
  match exec fullRegex hex with
  | Some [r1; r2; g1; g2; b1; b2] =>
      match parseInt16 [r1; r2], parseInt16 [g1; g2], parseInt16 [b1; b2] with
      | Some r, Some g, Some b => Some (mkRGB r g b)
      | _, _, _ => None
      end
  | _ => None
  end.

(** Lower-case digit of a value below 16, as printed by [toString(16)]. *)
Definition hex_digit (d : Z) : ascii :=
  if d <? 10 then ascii_of_nat (Z.to_nat (48 + d))
  else ascii_of_nat (Z.to_nat (87 + d)).

Fixpoint hex_digits (fuel : nat) (n : Z) (acc : string) : string :=
  match fuel with
  | O => acc
  | S fuel' =>
      let acc' := String (hex_digit (n mod 16)) acc in
      if n / 16 =? 0 then acc' else hex_digits fuel' (n / 16) acc'
  end.

(** [n.toString(16)] for an integer [n]. *)
Definition toString16 (n : Z) : string :=
  if n <? 0 then String "-" (hex_digits (S (Z.to_nat (Z.log2 (- n)))) (- n) "")
  else hex_digits (S (Z.to_nat (Z.log2 n))) n "".

(** [s.slice(1)] *)
Definition slice1 (s : string) : string :=
  match s with EmptyString => EmptyString | String _ s' => s' end.

Fixpoint repeat_char (c : ascii) (n : nat) : string :=
  match n with O => EmptyString | S k => String c (repeat_char c k) end.

(** [s.padStart(n, c)] for a one-character filler. *)
Definition padStart (n : nat) (c : ascii) (s : string) : string :=
  repeat_char c (n - String.length s) ++ s.

Definition rgbToHex (r g b : Z) : string :=
  "#" ++ padStart 6 "0" (slice1 (toString16 (shl 1 24 + shl r 16 + shl g 8 + b))).


Local Open Scope float_scope.

(** [type HSL = [number, number, number]] *)
Definition HSL : Type := float * float * float.

Definition rgbToHsl (r g b : float) : HSL :=
  let r := r / 255 in
  let g := g / 255 in
  let b := b / 255 in
  let max := Math_max r g b in
  let min := Math_min r g b in
  let l := (max + min) / 2 in
  if negb (max =? min) then
    let d := max - min in
    let s := if 0.5 <? l then d / (2 - max - min) else d / (max + min) in
    let h :=
      if max =? r then (g - b) / d + (if g <? b then 6 else 0)
      else if max =? g then (b - r) / d + 2
      else if max =? b then (r - g) / d + 4
      else 0 in
    (h / 6, s, l)
  else (0, 0, l).

Definition hue2rgb (p q t : float) : float :=
  let t := if t <? 0 then t + 1 else t in
  let t := if 1 <? t then t - 1 else t in
  if t <? 1 / 6 then p + (q - p) * 6 * t
  else if t <? 1 / 2 then q
  else if t <? 2 / 3 then p + (q - p) * (2 / 3 - t) * 6
  else p.

Definition hslToRgb (h s l : float) : float * float * float :=
  let '(r, g, b) :=
    if s =? 0 then (l, l, l)
    else
      let q := if l <? 0.5 then l * (1 + s) else l + s - l * s in
      let p := 2 * l - q in
      (hue2rgb p q (h + 1 / 3), hue2rgb p q h, hue2rgb p q (h - 1 / 3)) in
  (Math_round (r * 255), Math_round (g * 255), Math_round (b * 255)).

(* ================================================================== *)
(** * Color Style Generator: constants for the adaptive algorithm *)
(* ================================================================== *)

Inductive ColorWeight :=
| W50 | W100 | W200 | W300 | W400 | W500 | W600 | W700 | W800 | W900 | W950.

(** The string a weight stands for. *)
Definition weight_label (w : ColorWeight) : string :=
  match w with
  | W50 => "50" | W100 => "100" | W200 => "200" | W300 => "300"
  | W400 => "400" | W500 => "500" | W600 => "600" | W700 => "700"
  | W800 => "800" | W900 => "900" | W950 => "950"
  end.

Definition TARGET_LIGHTNESS (w : ColorWeight) : float :=
  match w with
  | W50 => 0.97
  | W100 => 0.94
  | W200 => 0.86
  | W300 => 0.76
  | W400 => 0.65
  | W500 => 0.54
  | W600 => 0.43
  | W700 => 0.32
  | W800 => 0.22
  | W900 => 0.13
  | W950 => 0.06
  end.

Definition TARGET_SATURATION (w : ColorWeight) : float :=
  match w with
  | W50 => 0.8
  | W100 => 0.85
  | W200 => 0.9
  | W300 => 0.95
  | W400 => 1.0
  | W500 => 1.0
  | W600 => 1.0
  | W700 => 0.98
  | W800 => 0.95
  | W900 => 0.9
  | W950 => 0.85
  end.

Definition ALL_WEIGHTS : list ColorWeight :=
  [W50; W100; W200; W300; W400; W500; W600; W700; W800; W900; W950].

(* ================================================================== *)
(** * The host document *)
(* ================================================================== *)

(** A solid paint colour: channels are numbers in [0, 1]. *)
Record Color := mkColor { cr : float; cg : float; cb : float }.

Record PaintStyle := mkPaintStyle
  { style_name : string; style_paints : list Color }.

Record VariableCollection := mkCollection
  { collection_name : string; collection_modes : list nat }.

Record ColorVariable := mkVariable
  { variable_name : string;
    variable_collection : nat;              (* index of its collection *)
    variable_values : list (nat * Color) }. (* value per mode *)

Record Notification := mkNotification
  { notify_message : string; notify_error : bool }.

(** What the [figma] global holds for this plugin. *)
Record Figma := mkFigma
  { collections : list VariableCollection;
    paintStyles : list PaintStyle;
    variables : list ColorVariable;
    notifications : list Notification;
    closed : bool }.

Definition empty_document : Figma := mkFigma [] [] [] [] false.

(** Apply [f] to the element at index [i] (objects are mutated in place). *)
Fixpoint update_at {A} (i : nat) (f : A -> A) (l : list A) : list A :=
  match l, i with
  | [], _ => []
  | x :: l', O => f x :: l'
  | x :: l', S i' => x :: update_at i' f l'
  end.

(** [figma.variables.createVariableCollection(name)]: a new collection with
    one default mode; the result is a handle on it. *)
Definition createVariableCollection (name : string) (fg : Figma)
  : nat * Figma :=
  let id := List.length (collections fg) in
  (id, mkFigma (collections fg ++ [mkCollection name [id]])
         (paintStyles fg) (variables fg) (notifications fg) (closed fg)).

(** [figma.createPaintStyle()] *)
Definition createPaintStyle (fg : Figma) : nat * Figma :=
  (List.length (paintStyles fg),
   mkFigma (collections fg) (paintStyles fg ++ [mkPaintStyle "" []])
     (variables fg) (notifications fg) (closed fg)).

Definition set_style (style : nat) (f : PaintStyle -> PaintStyle) (fg : Figma)
  : Figma :=
  mkFigma (collections fg) (update_at style f (paintStyles fg))
    (variables fg) (notifications fg) (closed fg).

(** [figma.variables.createVariable(name, collection, 'COLOR')] *)
Definition createVariable (name : string) (collection : nat) (fg : Figma)
  : nat * Figma :=
  (List.length (variables fg),
   mkFigma (collections fg) (paintStyles fg)
     (variables fg ++ [mkVariable name collection []])
     (notifications fg) (closed fg)).

(** [variable.setValueForMode(modeId, value)] *)
Definition setValueForMode (variable mode : nat) (value : Color) (fg : Figma)
  : Figma :=
  mkFigma (collections fg) (paintStyles fg)
    (update_at variable
       (fun v => mkVariable (variable_name v) (variable_collection v)
                   (variable_values v ++ [(mode, value)]))
       (variables fg))
    (notifications fg) (closed fg).

(** [collection.modes[0].modeId] *)
Definition first_mode (collection : nat) (fg : Figma) : nat :=
  match nth_error (collections fg) collection with
  | Some c => hd 0%nat (collection_modes c)
  | None => 0%nat
  end.

Definition notify (message : string) (error : bool) (fg : Figma) : Figma :=
  mkFigma (collections fg) (paintStyles fg) (variables fg)
    (notifications fg ++ [mkNotification message error]) (closed fg).

Definition closePlugin (fg : Figma) : Figma :=
  mkFigma (collections fg) (paintStyles fg) (variables fg)
    (notifications fg) true.

(* ================================================================== *)
(** * Color Style Generator: the [generate-palette] handler *)
(* ================================================================== *)

(** One iteration of the scan for the closest weight. *)
Definition scan_step (inputL : float) (st : ColorWeight * float)
  (weight : ColorWeight) : ColorWeight * float :=
  let '(baseWeight, minLightnessDiff) := st in
  let diff := Math_abs (inputL - TARGET_LIGHTNESS weight) in
  if diff <? minLightnessDiff then (weight, diff)
  else (baseWeight, minLightnessDiff).

(** [baseWeight] after the scan: the closest weight for the input colour. *)
Definition baseWeight (inputL : float) : ColorWeight :=
  fst (fold_left (scan_step inputL) ALL_WEIGHTS (W500, infinity)).

Definition lightnessDelta (inputL : float) (baseWeight : ColorWeight) : float :=
  inputL - TARGET_LIGHTNESS baseWeight.

Definition saturationDelta (inputS : float) (baseWeight : ColorWeight) : float :=
  inputS - TARGET_SATURATION baseWeight * inputS.

Definition clampedL (lightnessDelta : float) (weight : ColorWeight) : float :=
  let newLightness := TARGET_LIGHTNESS weight + lightnessDelta in
  Math_max2 0 (Math_min2 1 newLightness).

Definition clampedS (inputS saturationDelta : float) (weight : ColorWeight)
  : float :=
  let newSaturation := TARGET_SATURATION weight * inputS + saturationDelta in
  Math_max2 0 (Math_min2 1 newSaturation).

(** [newRgbArray] for one weight. *)
Definition newRgbArray (inputH inputS lightnessDelta saturationDelta : float)
  (weight : ColorWeight) : float * float * float :=
  let hue := inputH in
  hslToRgb hue (clampedS inputS saturationDelta weight)
    (clampedL lightnessDelta weight).

(** The colour registered for an RGB array: every channel divided by 255. *)
Definition paint_color (newRgb : float * float * float) : Color :=
  let '(r, g, b) := newRgb in mkColor (r / 255) (g / 255) (b / 255).

(** The body of the loop that generates the palette and creates styles. *)
Definition palette_step (name : string) (collection : nat)
  (inputH inputS lightnessDelta saturationDelta : float)
  (fg : Figma) (weight : ColorWeight) : Figma :=
  let newRgb :=
    newRgbArray inputH inputS lightnessDelta saturationDelta weight in
  (* Create a Figma Paint Style for each color *)
  let '(style, fg) := createPaintStyle fg in
  let fg :=
    set_style style
      (fun s => mkPaintStyle
                  ("UI Colors/" ++ name ++ "/" ++ weight_label weight)
                  (style_paints s)) fg in
  let fg :=
    set_style style
      (fun s => mkPaintStyle (style_name s) [paint_color newRgb]) fg in
  let '(colorVariable, fg) :=
    createVariable (name ++ "/" ++ weight_label weight) collection fg in
  let lightModeId := first_mode collection fg in
  setValueForMode colorVariable lightModeId (paint_color newRgb) fg.

Definition double_quote : string := String (ascii_of_nat 34) "".

(** The artist-palette emoji that opens the closing notification. *)
Definition palette_emoji : string :=
  string_of_list_ascii (map ascii_of_nat [240; 159; 142; 168]%nat).

(** The handler from the point where the seed is known in HSL. *)
Definition generate_styles (name : string) (collection : nat) (hsl : HSL)
  (fg : Figma) : Figma :=
  let '(inputH, inputS, inputL) := hsl in
  (* Find the closest weight for the input color *)
  let baseWeight := baseWeight inputL in
  let lightnessDelta := lightnessDelta inputL baseWeight in
  let saturationDelta := saturationDelta inputS baseWeight in
  let fg :=
    fold_left
      (palette_step name collection inputH inputS lightnessDelta
         saturationDelta)
      ALL_WEIGHTS fg in
  let fg :=
    notify (palette_emoji ++ " " ++ double_quote ++ name ++ double_quote
            ++ " styles created in the " ++ double_quote ++ "UI Colors"
            ++ double_quote ++ " group!") false fg in
  closePlugin fg.

Inductive Message :=
| GeneratePalette (name hex : string)   (* type 'generate-palette' *)
| OtherMessage (type : string).

Definition onmessage (msg : Message) (fg : Figma) : Figma :=
  match msg with
  | GeneratePalette name hex =>
      let '(collection, fg) := createVariableCollection "UI Colors" fg in
      match hexToRgb hex with
      | None => notify "Invalid hex code provided." true fg
      | Some baseColorRgb =>
          generate_styles name collection
            (rgbToHsl (Number (red baseColorRgb))
               (Number (green baseColorRgb)) (Number (blue baseColorRgb)))
            fg
      end
  | OtherMessage _ => fg
  end.

(** The HSL form of a parsed seed. *)
Definition seed_hsl (c : RGB) : HSL :=
  rgbToHsl (Number (red c)) (Number (green c)) (Number (blue c)).

(* ================================================================== *)
(** * JavaScript string built-ins used by the layout generator *)
(* ================================================================== *)

Module JSString.

Local Open Scope float_scope.

(** [s.slice(i, j)] for indices [0 <= i <= j]: the characters of [s] from
    position [i] up to, not including, position [j], as far as [s]
    reaches. *)
Definition slice (i j : nat) (s : string) : string := substring i (j - i) s.

(** White space and line terminators among the code units below 256. *)
Definition is_white_space (c : ascii) : bool :=
  let n := nat_of_ascii c in
  ((9 <=? n) && (n <=? 13) || (n =? 32) || (n =? 160))%nat.

Fixpoint trim_start (s : string) : string :=
  match s with
  | String c s' => if is_white_space c then trim_start s' else s
  | EmptyString => s
  end.

(** Value of a digit in radix [R], if it is one. *)
Definition digit_value (R : Z) (c : ascii) : option Z :=
  let n := Z.of_nat (nat_of_ascii c) in
  let v :=
    if ((48 <=? n) && (n <=? 57))%Z then Some (n - 48)%Z
    else if ((97 <=? n) && (n <=? 122))%Z then Some (n - 87)%Z
    else if ((65 <=? n) && (n <=? 90))%Z then Some (n - 55)%Z
    else None in
  match v with
  | Some d => if (d <? R)%Z then Some d else None
  | None => None
  end.

(** The value of the longest prefix of radix-[R] digits; [None] when there
    is no digit. *)
Fixpoint digits_value (R : Z) (acc : option Z) (s : string) : option Z :=
  match s with
  | EmptyString => acc
  | String c s' =>
      match digit_value R c with
      | Some d =>
          digits_value R
            (Some (R * match acc with Some a => a | None => 0 end + d)%Z) s'
      | None => acc
      end
  end.

(** [parseInt(s, radix)] for an integer [radix]: leading white space is
    skipped, then a sign, then (for radix 16 or 0) a prefix [0x] or [0X];
    the result is NaN when no digit follows, and [-0] for a negative zero.
    The value is exact as long as it is below 2^53. *)
Definition parseInt (s : string) (radix : Z) : float :=
  let str := trim_start s in
  let negative :=
    match str with String c _ => Ascii.eqb c "-" | EmptyString => false end in
  let str :=
    match str with
    | String c rest => if Ascii.eqb c "+" || Ascii.eqb c "-" then rest else str
    | EmptyString => str
    end in
  let R := ToInt32 radix in
  if negb (R =? 0)%Z && ((R <? 2)%Z || (36 <? R)%Z) then nan
  else
    let stripPrefix := (R =? 0)%Z || (R =? 16)%Z in
    let R := if (R =? 0)%Z then 10%Z else R in
    let '(str, R) :=
      match str with
      | String c0 (String c1 rest) =>
          if stripPrefix && Ascii.eqb c0 "0"
             && (Ascii.eqb c1 "x" || Ascii.eqb c1 "X")
          then (rest, 16%Z) else (str, R)
      | _ => (str, R)
      end in
    match digits_value R None str with
    | None => nan
    | Some mathInt => if negative then - Number mathInt else Number mathInt
    end.

(** [String.fromCharCode(n)] for an integer [n]: one UTF-16 code unit. *)
Definition fromCharCode (n : Z) : list Z := [n mod 65536]%Z.

(** The UTF-16 code units of a string of code units below 256. *)
Definition code_units (s : string) : list Z :=
  map (fun c => Z.of_nat (nat_of_ascii c)) (list_ascii_of_string s).

Fixpoint decimal_digits (fuel : nat) (n : Z) (acc : string) : string :=
  match fuel with
  | O => acc
  | S fuel' =>
      let acc' := String (ascii_of_nat (Z.to_nat (48 + n mod 10))) acc in
      if (n / 10 =? 0)%Z then acc' else decimal_digits fuel' (n / 10) acc'
  end.

(** The decimal form of an integer, as a template literal prints it. *)
Definition toString10 (n : Z) : string :=
  if (n <? 0)%Z
  then String "-" (decimal_digits (S (Z.to_nat (Z.log2 (- n)))) (- n) "")
  else decimal_digits (S (Z.to_nat (Z.log2 n))) n "".

End JSString.

(* ================================================================== *)
(** * Bento layout generator: presets, palettes and the generated scene *)
(* ================================================================== *)

Module BentoPlugin.

Import JSString.

Local Open Scope float_scope.

Inductive PresetKey := grid | golden | heroRight | heroLeft | masonry6.

Inductive PaletteKey := neutral | sunset | mint | ocean | grape | mono.

(** The field [labelStyle] of the payload. *)
Inductive LabelStyle := none | numbers | letters.

(** Basic message types from UI.  [rows] and [cols] hold integers. *)
Record GeneratePayload := mkPayload
  { preset : PresetKey;
    width : float;   (* parent frame width *)
    height : float;  (* parent frame height *)
    rows : Z;        (* for grid/custom *)
    cols : Z;        (* for grid/custom *)
    gap : float;
    padding : float;
    radius : float;
    addShadow : bool;
    palette : PaletteKey;
    labelStyle : LabelStyle }.

(** Preset registry: the preset that the function of [key] returns on
    [r] and [c], or [None] when the call throws. *)
Definition PRESETS (key : PresetKey) (r c : Z) : option Bento.Preset :=
  match key with
  | grid => Bento.grid r c
  (* 3x3 with one 2x2 hero top-left *)
  | golden =>
      Some (Bento.mkPreset 3 3
        [ Bento.mkCell 0 0 2 2; (* hero *)
          Bento.mkCell 0 2 1 1;
          Bento.mkCell 1 2 1 1;
          Bento.mkCell 2 0 1 1;
          Bento.mkCell 2 1 1 1;
          Bento.mkCell 2 2 1 1 ])
  (* 3x4, hero on the right spanning 2x3 *)
  | heroRight =>
      Some (Bento.mkPreset 3 4
        [ Bento.mkCell 0 2 3 2; (* hero right *)
          Bento.mkCell 0 0 1 1;
          Bento.mkCell 0 1 1 1;
          Bento.mkCell 1 0 1 2;
          Bento.mkCell 2 0 1 1;
          Bento.mkCell 2 1 1 1 ])
  (* 3x4, hero on the left spanning 2x3 *)
  | heroLeft =>
      Some (Bento.mkPreset 3 4
        [ Bento.mkCell 0 0 3 2; (* hero left *)
          Bento.mkCell 0 2 1 1;
          Bento.mkCell 0 3 1 1;
          Bento.mkCell 1 2 1 2;
          Bento.mkCell 2 2 1 1;
          Bento.mkCell 2 3 1 1 ])
  (* 3x4 visually balanced 6 cards with varied spans *)
  | masonry6 =>
      Some (Bento.mkPreset 3 4
        [ Bento.mkCell 0 0 2 2;
          Bento.mkCell 0 2 1 2;
          Bento.mkCell 1 2 1 1;
          Bento.mkCell 1 3 2 1;
          Bento.mkCell 2 0 1 1;
          Bento.mkCell 2 1 1 1 ])
  end.

(** [hex]: the three channels are read at fixed positions of [h] and
    scaled to the unit interval. *)
Definition hex (h : string) : Color :=
  let r := parseInt (slice 1 3 h) 16 / 255 in
  let g := parseInt (slice 3 5 h) 16 / 255 in
  let b := parseInt (slice 5 7 h) 16 / 255 in
  mkColor r g b.

Definition rgb (v : float) : Color := mkColor v v v.

(** Palettes (linear interpolation will generate variety). *)
Definition PALETTES (key : PaletteKey) : list Color :=
  match key with
  | neutral => [rgb 0.95; rgb 0.9; rgb 0.85; rgb 0.8; rgb 0.75]
  | mono => [rgb 0.1; rgb 0.18; rgb 0.26; rgb 0.34; rgb 0.42]
  | sunset =>
      [hex "#FF7A59"; hex "#FFB65C"; hex "#FFD36A"; hex "#E86BF5";
       hex "#9A6BFF"]
  | mint =>
      [hex "#00EBA8"; hex "#7FFFD4"; hex "#2ED7A6"; hex "#A6FFE3";
       hex "#11C5A1"]
  | ocean =>
      [hex "#0EA5E9"; hex "#38BDF8"; hex "#22D3EE"; hex "#0284C7";
       hex "#14B8A6"]
  | grape =>
      [hex "#8B5CF6"; hex "#A78BFA"; hex "#C084FC"; hex "#7C3AED";
       hex "#6D28D9"]
  end.

(** A solid paint; the colour [None] is [undefined]. *)
Inductive Paint := SOLID (color : option Color).

Definition paint (color : option Color) : Paint := SOLID color.

(** [a[i]] for an integer [i]; [None] is [undefined]. *)
Definition element {A} (a : list A) (i : Z) : option A :=
  if (i <? 0)%Z then None else nth_error a (Z.to_nat i).

Record Effect := mkEffect
  { effect_type : string;
    effect_color : float * float * float * float; (* r, g, b, a *)
    offset : float * float;
    effect_radius : float;
    spread : float;
    visible : bool;
    blendMode : string }.

(** A text node, by the properties the plugin assigns. *)
Record TextNode := mkTextNode
  { text_name : string;
    characters : list Z; (* UTF-16 code units *)
    fontSize : float;
    text_fills : list Paint }.

(** A card, by the properties the plugin assigns. *)
Record CardNode := mkCardNode
  { card_name : string;
    card_x : float;
    card_y : float;
    card_width : float;
    card_height : float;
    card_cornerRadius : float;
    card_fills : list Paint;
    effects : list Effect;
    layoutMode : string;
    primaryAxisSizingMode : string;
    counterAxisSizingMode : string;
    paddingLeft : float;
    paddingRight : float;
    paddingTop : float;
    paddingBottom : float;
    itemSpacing : float;
    card_children : list TextNode }.

(** The parent container, by the properties the plugin assigns. *)
Record FrameNode := mkFrameNode
  { frame_name : string;
    frame_width : float;
    frame_height : float;
    frame_fills : list Paint;
    frame_cornerRadius : float;
    clipsContent : bool;
    frame_x : float;
    frame_y : float;
    frame_children : list CardNode }.

(** What the [figma] global holds for this plugin: the centre of the
    viewport, the frames of the current page, the selection and the nodes
    last scrolled into view (both by position in the page), and whether
    the plugin has been closed. *)
Record Host := mkHost
  { viewport_center : float * float;
    currentPage : list FrameNode;
    selection : list nat;
    scrolledIntoView : list nat;
    closed : bool }.

(** Optional soft shadow for cards. *)
Definition cardEffect (p : GeneratePayload) : list Effect :=
  if addShadow p then
    [ {| effect_type := "DROP_SHADOW";
         effect_color := (0, 0, 0, 0.08);
         offset := (0, 6);
         effect_radius := 16;
         spread := 0;
         visible := true;
         blendMode := "NORMAL" |} ]
  else [].

Definition white : Color := mkColor 1 1 1.

(** The optional label of card [i]. *)
Definition label (p : GeneratePayload) (i : Z) : list TextNode :=
  match labelStyle p with
  | none => []
  | numbers =>
      [ {| text_name := "Label";
           characters := code_units (toString10 (i + 1));
           fontSize := 16;
           text_fills := [SOLID (Some white)] |} ]
  | letters =>
      [ {| text_name := "Label";
           characters := fromCharCode (65 + i);
           fontSize := 16;
           text_fills := [SOLID (Some white)] |} ]
  end.

(** The body of the loop over the cells: the card of cell [c], the [i]-th
    one. *)
Definition card (p : GeneratePayload) (unitW unitH : float) (i : Z)
  (c : Bento.CellSpan) : CardNode :=
  let gap := gap p in
  let padding := padding p in
  let radius := radius p in
  let palette := PALETTES (palette p) in
  let x := padding + Number (Bento.col c) * (unitW + gap) in
  let y := padding + Number (Bento.row c) * (unitH + gap) in
  let w :=
    Number (Bento.colSpan c) * unitW + (Number (Bento.colSpan c) - 1) * gap in
  let h :=
    Number (Bento.rowSpan c) * unitH + (Number (Bento.rowSpan c) - 1) * gap in
  {| card_name := "Card " ++ toString10 (i + 1);
     card_x := x;
     card_y := y;
     card_width := w;
     card_height := h;
     card_cornerRadius := radius;
     card_fills :=
       [paint (element palette (i mod Z.of_nat (List.length palette)))];
     effects := cardEffect p;
     (* Make it a small auto-layout to host content later *)
     layoutMode := "VERTICAL";
     primaryAxisSizingMode := "AUTO";
     counterAxisSizingMode := "AUTO";
     paddingLeft := 16;
     paddingRight := 16;
     paddingTop := 16;
     paddingBottom := 16;
     itemSpacing := 8;
     card_children := label p i |}.

(** The loop [for (let i = 0; i < cells.length; i++)], from index [i] on. *)
Fixpoint cards_from (p : GeneratePayload) (unitW unitH : float) (i : Z)
  (cells : list Bento.CellSpan) : list CardNode :=
  match cells with
  | [] => []
  | c :: rest => card p unitW unitH i c :: cards_from p unitW unitH (i + 1) rest
  end.

(** Core generation.  The preset is computed first: when that call
    throws, the promise is rejected before anything is created
    ([None]). *)
Definition generateBento (p : GeneratePayload) (figma : Host)
  : option Host :=
  match PRESETS (preset p) (rows p) (cols p) with
  | None => None
  | Some preset =>
      let rows := Bento.rows preset in
      let cols := Bento.cols preset in
      let cells := Bento.cells preset in
      let width := width p in
      let height := height p in
      let gap := gap p in
      let padding := padding p in
      let gridWidth := width - padding * 2 - gap * (Number cols - 1) in
      let gridHeight := height - padding * 2 - gap * (Number rows - 1) in
      let unitW := gridWidth / Number cols in
      let unitH := gridHeight / Number rows in
      (* Parent container *)
      let frame :=
        {| frame_name := "Bento";
           frame_width := width;
           frame_height := height;
           frame_fills := [SOLID (Some white)];
           frame_cornerRadius := 16;
           clipsContent := false;
           frame_x := fst (viewport_center figma) - width / 2;
           frame_y := snd (viewport_center figma) - height / 2;
           frame_children := cards_from p unitW unitH 0 cells |} in
      let id := List.length (currentPage figma) in
      Some
        {| viewport_center := viewport_center figma;
           currentPage := (currentPage figma ++ [frame])%list;
           selection := [id];
           scrolledIntoView := [id];
           closed := closed figma |}
  end.

Definition closePlugin (figma : Host) : Host :=
  {| viewport_center := viewport_center figma;
     currentPage := currentPage figma;
     selection := selection figma;
     scrolledIntoView := scrolledIntoView figma;
     closed := true |}.

Inductive Message :=
| Generate (payload : GeneratePayload) (* type 'generate' *)
| Relaunch                            (* type 'relaunch' *)
| OtherMessage (type : string).

(** Message handling.  The plugin is closed when the promise of
    [generateBento] is fulfilled; a rejected promise is not handled. *)
Definition onmessage (msg : Message) (figma : Host) : Host :=
  match msg with
  | Generate payload =>
      match generateBento payload figma with
      | Some figma => closePlugin figma
      | None => figma
      end
  | Relaunch => closePlugin figma
  | OtherMessage _ => figma
  end.

End BentoPlugin.

(* ================================================================== *)
(** * Notions used to state the properties *)
(* ================================================================== *)

(** ** Grid coverage *)

(** Does a cell cover the unit position [(y, x)]? *)
Definition covers (y x : Z) (c : Bento.CellSpan) : bool :=
  ((Bento.row c <=? y) && (y <? Bento.row c + Bento.rowSpan c) &&
   (Bento.col c <=? x) && (x <? Bento.col c + Bento.colSpan c))%Z.

(** ** Valid hex colours *)

(** A hexadecimal digit, in either case. *)
Definition is_hex_digit (c : ascii) : bool :=
  let n := nat_of_ascii c in
  (((48 <=? n) && (n <=? 57)) || ((97 <=? n) && (n <=? 102))
   || ((65 <=? n) && (n <=? 70)))%nat.

(** Drop one leading [#], if there is one. *)
Definition strip_hash (s : string) : string :=
  match s with
  | String c s' => if Ascii.eqb c "#" then s' else s
  | EmptyString => s
  end.

(** After an optional leading [#]: exactly 3 or exactly 6 hex digits. *)
Definition valid_hex_string (s : string) : bool :=
  let body := list_ascii_of_string (strip_hash s) in
  ((List.length body =? 3)%nat || (List.length body =? 6)%nat)
  && forallb is_hex_digit body.

Definition to_lower (c : ascii) : ascii :=
  let n := nat_of_ascii c in
  if ((65 <=? n) && (n <=? 90))%nat then ascii_of_nat (n + 32) else c.

Definition lowercase (s : list ascii) : list ascii := map to_lower s.

(** The three channels read from six captured digits, as in the result of
    [hexToRgb]. *)
Definition channels_of (d : list ascii) : option RGB :=
  match d with
  | [r1; r2; g1; g2; b1; b2] =>
      match parseInt16 [r1; r2], parseInt16 [g1; g2], parseInt16 [b1; b2] with
      | Some r, Some g, Some b => Some (mkRGB r g b)
      | _, _, _ => None
      end
  | _ => None
  end.

(** ** Seeds

    A parsed seed has three channels in 0..255, so statements about every
    seed are settled by evaluating the code on all of them. *)

Definition channel_values : list Z := map Z.of_nat (seq 0 256).

(** A channel scaled to the unit interval, as [rgbToHsl] does first. *)
Definition unit_channel (z : Z) : float := Number z / 255.

(** Scaling keeps the order of two channel values. *)
Definition order_kept (a b : Z) : bool :=
  Bool.eqb (unit_channel a <? unit_channel b) (a <? b)%Z
  && Bool.eqb (unit_channel a =? unit_channel b) (a =? b)%Z
  && Bool.eqb (unit_channel a =? 0) (a =? 0)%Z.

(** Lightness and saturation as [rgbToHsl] computes them from the largest
    and the smallest channel. *)
Definition seed_lightness (hi lo : Z) : float :=
  (unit_channel hi + unit_channel lo) / 2.

Definition seed_saturation (hi lo : Z) : float :=
  let max := unit_channel hi in
  let min := unit_channel lo in
  let l := (max + min) / 2 in
  if negb (max =? min) then
    let d := max - min in
    if 0.5 <? l then d / (2 - max - min) else d / (max + min)
  else 0.

(** [P] holds of the saturation and lightness of every pair of extreme
    channels [lo <= hi]. *)
Definition seeds_satisfy (P : float -> float -> bool) : bool :=
  forallb
    (fun hi =>
       forallb
         (fun lo =>
            if (hi <? lo)%Z then true
            else P (seed_saturation hi lo) (seed_lightness hi lo))
         channel_values)
    channel_values.

(** [P] holds of [x], [x + 1], ..., [x + (n - 1)]. *)
Fixpoint all_from (n : nat) (x : float) (P : float -> bool) : bool :=
  match n with
  | O => true
  | S k => if P x then all_from k (x + 1) P else false
  end.

(** ** The ramp as the specification writes it *)

Definition clamp01 (x : float) : float := Math_max2 0 (Math_min2 1 x).

Definition ramp_color (H S L : float) (w0 w : ColorWeight)
  : float * float * float :=
  hslToRgb H
    (clamp01 (TARGET_SATURATION w * S + (S - TARGET_SATURATION w0 * S)))
    (clamp01 (TARGET_LIGHTNESS w + (L - TARGET_LIGHTNESS w0))).

Definition in_unit_interval (x : float) : bool := (0 <=? x) && (x <=? 1).

(** Both clamped arguments of [hslToRgb] lie in [0, 1], at every weight. *)
Definition clamped_in_range (S L : float) : bool :=
  let w0 := baseWeight L in
  forallb
    (fun w =>
       in_unit_interval (clampedS S (saturationDelta S w0) w)
       && in_unit_interval (clampedL (lightnessDelta L w0) w))
    ALL_WEIGHTS.

(** The style and the variable registered for one weight. *)
Definition style_for (name : string)
  (inputH inputS lightnessDelta saturationDelta : float) (w : ColorWeight)
  : PaintStyle :=
  mkPaintStyle ("UI Colors/" ++ name ++ "/" ++ weight_label w)
    [paint_color
       (newRgbArray inputH inputS lightnessDelta saturationDelta w)].

Definition variable_for (name : string) (collection : nat)
  (inputH inputS lightnessDelta saturationDelta : float) (mode : nat)
  (w : ColorWeight) : ColorVariable :=
  mkVariable (name ++ "/" ++ weight_label w) collection
    [(mode,
      paint_color
        (newRgbArray inputH inputS lightnessDelta saturationDelta w))].

(** The gray registered for lightness [l]. *)
Definition gray_of (l : float) : float * float * float :=
  let v := Math_round (l * 255) in (v, v, v).

(** ** The nearest weight *)

(** Position of a weight in [ALL_WEIGHTS]. *)
Definition weight_index (w : ColorWeight) : nat :=
  match w with
  | W50 => 0 | W100 => 1 | W200 => 2 | W300 => 3 | W400 => 4 | W500 => 5
  | W600 => 6 | W700 => 7 | W800 => 8 | W900 => 9 | W950 => 10
  end.

Definition lightness_diff (L : float) (w : ColorWeight) : float :=
  Math_abs (L - TARGET_LIGHTNESS w).

(** [w0] minimises the distance to [L], and every weight before it in the
    table is strictly farther. *)
Definition first_nearest (L : float) (w0 : ColorWeight) : Prop :=
  (forall w, (lightness_diff L w0 <=? lightness_diff L w) = true)
  /\ (forall w, (weight_index w < weight_index w0)%nat ->
                (lightness_diff L w0 <? lightness_diff L w) = true).

Definition first_nearest_b (L : float) (w0 : ColorWeight) : bool :=
  forallb
    (fun w =>
       (lightness_diff L w0 <=? lightness_diff L w)
       && (if (weight_index w <? weight_index w0)%nat
           then lightness_diff L w0 <? lightness_diff L w else true))
    ALL_WEIGHTS.


(** ** Ordered sequences of numbers *)

(** Every element is at most each element before it. *)
Definition non_increasing (l : list float) : Prop :=
  ForallOrdPairs (fun x y => (y <=? x) = true) l.

(** Every element is below each element before it. *)
Definition strictly_decreasing (l : list float) : Prop :=
  ForallOrdPairs (fun x y => (y <? x) = true) l.

Fixpoint ordered_pairs_b (R : float -> float -> bool) (l : list float)
  : bool :=
  match l with
  | [] => true
  | x :: t => forallb (R x) t && ordered_pairs_b R t
  end.

(** The clamped output lightness of each weight, in table order. *)
Definition output_lightness (L : float) : list float :=
  map (clampedL (lightnessDelta L (baseWeight L))) ALL_WEIGHTS.

(** ** The HSL round trip

    The round trip is evaluated on every colour.  Colours with two equal
    channels are evaluated as they are.  For the others, lightness,
    saturation, [q] and [p] depend on the largest and the smallest channel
    only and are computed once per pair; the third channel then runs
    strictly between them, in each of the six orders of the channels. *)

(** Converting to HSL and back gives the three channels bit for bit. *)
Definition round_trip_exact (r g b : float) : bool :=
  let '(h, s, l) := rgbToHsl r g b in
  let '(r', g', b') := hslToRgb h s l in
  Leibniz.eqb r' r && Leibniz.eqb g' g && Leibniz.eqb b' b.

(** All colours with two equal channels [a] and a third channel [b]. *)
Definition tied_pair_ok (a b : Z) : bool :=
  let fa := Number a in
  let fb := Number b in
  round_trip_exact fa fa fb && round_trip_exact fa fb fa
  && round_trip_exact fb fa fa.

(** The saturation that [rgbToHsl] computes from extreme channels
    [hi <> lo]. *)
Definition chroma_s (hi lo : Z) : float :=
  let max := unit_channel hi in
  let min := unit_channel lo in
  let l := (max + min) / 2 in
  let d := max - min in
  if 0.5 <? l then d / (2 - max - min) else d / (max + min).

(** The hue that [rgbToHsl] computes when the channels are not all equal,
    from the scaled channels, their maximum and [d]. *)
Definition hue_of (max d r g b : float) : float :=
  (if max =? r then (g - b) / d + (if g <? b then 6 else 0)
   else if max =? g then (b - r) / d + 2
   else if max =? b then (r - g) / d + 4
   else 0) / 6.

(** [q] and [p] of [hslToRgb]. *)
Definition hsl_q (s l : float) : float :=
  if l <? 0.5 then l * (1 + s) else l + s - l * s.

Definition hsl_p (l q : float) : float := 2 * l - q.

(** The tests under which [hue2rgb] returns [q], and [p]. *)
Definition in_top (t : float) : bool :=
  let t := if t <? 0 then t + 1 else t in
  let t := if 1 <? t then t - 1 else t in
  if t <? 1 / 6 then false else t <? 1 / 2.

Definition in_bottom (t : float) : bool :=
  let t := if t <? 0 then t + 1 else t in
  let t := if 1 <? t then t - 1 else t in
  if t <? 1 / 6 then false
  else if t <? 1 / 2 then false
  else negb (t <? 2 / 3).

(** The channel that [hslToRgb] computes at [t] is the channel value [c]. *)
Definition rounds_to (c p q t : float) : bool :=
  Leibniz.eqb (Math_round (hue2rgb p q t * 255)) c.

(** The six orders of three distinct channels [hi > mid > lo], each with
    the hue that [rgbToHsl] computes for it: the largest channel comes
    back as [q], the smallest as [p], and the middle one rounds to
    itself. *)
Definition strict_triple_ok (min d p q fmid : float) : bool :=
  let mid := fmid / 255 in
  let up := (mid - min) / d in
  let down := (min - mid) / d in
  (let h := (up + 0) / 6 in      (* r = hi, g = mid, b = lo *)
   in_top (h + 1 / 3) && rounds_to fmid p q h && in_bottom (h - 1 / 3))
  && (let h := (down + 6) / 6 in (* r = hi, g = lo, b = mid *)
      in_top (h + 1 / 3) && in_bottom h && rounds_to fmid p q (h - 1 / 3))
  && (let h := (up + 2) / 6 in   (* r = lo, g = hi, b = mid *)
      in_bottom (h + 1 / 3) && in_top h && rounds_to fmid p q (h - 1 / 3))
  && (let h := (down + 2) / 6 in (* r = mid, g = hi, b = lo *)
      rounds_to fmid p q (h + 1 / 3) && in_top h && in_bottom (h - 1 / 3))
  && (let h := (up + 4) / 6 in   (* r = mid, g = lo, b = hi *)
      rounds_to fmid p q (h + 1 / 3) && in_bottom h && in_top (h - 1 / 3))
  && (let h := (down + 4) / 6 in (* r = lo, g = mid, b = hi *)
      in_bottom (h + 1 / 3) && rounds_to fmid p q h && in_top (h - 1 / 3)).

(** All colours whose largest channel is [hi] and smallest is [lo < hi],
    with the third channel strictly between: the extremes come back from
    [q] and [p], and every middle channel passes [strict_triple_ok]. *)
Definition strict_pair_ok (hi lo : Z) : bool :=
  if (hi <=? lo)%Z then true
  else
    let min := unit_channel lo in
    let d := unit_channel hi - min in
    let s := chroma_s hi lo in
    let l := seed_lightness hi lo in
    if s =? 0 then false
    else
      let q := hsl_q s l in
      let p := hsl_p l q in
      Leibniz.eqb (Math_round (q * 255)) (Number hi)
      && Leibniz.eqb (Math_round (p * 255)) (Number lo)
      && all_from (Z.to_nat (hi - lo - 1)) (Number lo + 1)
           (strict_triple_ok min d p q).

(** Enumerate the 256 characters. *)
Ltac each_ascii c :=
  destruct c as [[] [] [] [] [] [] [] []].

(** Settle the comparisons of scaled channels by those of the channels
    (with the lemmas [unit_channel_eqb] and [unit_channel_ltb]). *)
Ltac settle_channel_tests eqb_lemma ltb_lemma :=
  repeat match goal with
    | |- context [unit_channel ?a =? unit_channel ?b] =>
        rewrite (eqb_lemma a b) by lia
    | |- context [unit_channel ?a <? unit_channel ?b] =>
        rewrite (ltb_lemma a b) by lia
    | |- context [(?a =? ?b)%Z] =>
        first [ rewrite (proj2 (Z.eqb_eq a b)) by lia
              | rewrite (proj2 (Z.eqb_neq a b)) by lia ]
    | |- context [(?a <? ?b)%Z] =>
        first [ rewrite (proj2 (Z.ltb_lt a b)) by lia
              | rewrite (proj2 (Z.ltb_ge a b)) by lia ]
    end.

(** Split a conjunction of tests into its parts. *)
Ltac split_tests H :=
  repeat match type of H with
    | (_ && _) = true =>
        let H1 := fresh "T" in
        apply andb_prop in H; destruct H as [H1 H]; split_tests H1
    end.

(** ** Presets and the generated scene *)

Module BentoNotions.

Import JSString BentoPlugin.

(** A cell lies within a preset's rows and columns and spans at least one
    row and one column. *)
Definition cell_in_bounds (p : Bento.Preset) (c : Bento.CellSpan) : Prop :=
  (0 <= Bento.row c /\ 1 <= Bento.rowSpan c
   /\ Bento.row c + Bento.rowSpan c <= Bento.rows p
   /\ 0 <= Bento.col c /\ 1 <= Bento.colSpan c
   /\ Bento.col c + Bento.colSpan c <= Bento.cols p)%Z.

(** How many cells of a preset cover the unit position [(y, x)]. *)
Definition cover_count (p : Bento.Preset) (y x : Z) : nat :=
  List.length (filter (covers y x) (Bento.cells p)).

(** The cards of the frames that [generateBento] adds to the page; there
    is none when the call throws. *)
Definition new_cards (p : GeneratePayload) (figma : Host) : list CardNode :=
  match generateBento p figma with
  | Some out =>
      flat_map frame_children
        (skipn (List.length (currentPage figma)) (currentPage out))
  | None => []
  end.

(** The width and the height of one unit of the grid, as [generateBento]
    computes them from the payload and the preset. *)
Definition unit_width (p : GeneratePayload) (preset : Bento.Preset) : float :=
  (width p - padding p * 2 - gap p * (Number (Bento.cols preset) - 1))
  / Number (Bento.cols preset).

Definition unit_height (p : GeneratePayload) (preset : Bento.Preset)
  : float :=
  (height p - padding p * 2 - gap p * (Number (Bento.rows preset) - 1))
  / Number (Bento.rows preset).

(** A colour whose three channels lie in [0, 1]. *)
Definition valid_color (c : Color) : bool :=
  in_unit_interval (cr c) && in_unit_interval (cg c)
  && in_unit_interval (cb c).

(** The code units of the capital letters [A] to [Z]. *)
Definition is_capital (code : Z) : bool :=
  ((65 <=? code) && (code <=? 90))%Z.

(** The 256 characters. *)
Definition all_ascii : list ascii := map ascii_of_nat (seq 0 256).

(** On two hexadecimal digits [parseInt] gives the Number of the value
    that [parseInt16] reads. *)
Definition hex_pair_parses (a b : ascii) : bool :=
  if is_hex_digit a && is_hex_digit b then
    match parseInt16 [a; b] with
    | Some v => Leibniz.eqb (parseInt (String a (String b "")) 16) (Number v)
    | None => false
    end
  else true.

(** A payload and a host to run the generator on. *)
Definition golden_payload : GeneratePayload :=
  mkPayload golden 1200 800 3 3 16 24 20 true sunset letters.

Definition empty_grid_payload : GeneratePayload :=
  mkPayload grid 1200 800 0 4 16 24 20 false neutral none.

Definition huge_grid_payload : GeneratePayload :=
  mkPayload grid 1200 800 65536 65536 16 24 20 false neutral none.

Definition empty_page : Host := mkHost (0, 0) [] [] [] false.

End BentoNotions.

(** ** Hex strings *)

Module HexNotions.

(** A string with every character mapped by [f]. *)
Fixpoint map_string (f : ascii -> ascii) (s : string) : string :=
  match s with
  | EmptyString => EmptyString
  | String c s' => String (f c) (map_string f s')
  end.

(** The three 8-bit channels packed in a value. *)
Definition unpack (v : Z) : RGB :=
  mkRGB (v / 65536 mod 256)%Z (v / 256 mod 256)%Z (v mod 256)%Z.

End HexNotions.

(** ** The palette of a seed *)

Module PaletteNotions.

(** At the matched weight the clamped saturation and lightness are the
    seed's own, bit for bit. *)
Definition matched_weight_exact (S L : float) : bool :=
  let w0 := baseWeight L in
  Leibniz.eqb (clampedS S (saturationDelta S w0) w0) S
  && Leibniz.eqb (clampedL (lightnessDelta L w0) w0) L.

(** Saturation and lightness of a pair of extreme channels lie in [0, 1];
    the saturation is zero exactly when the extremes are equal, and the
    lightness is 0 for black and 1 for white only. *)
Definition saturation_lightness_ok (hi lo : Z) : bool :=
  if (hi <? lo)%Z then true
  else
    let s := seed_saturation hi lo in
    let l := seed_lightness hi lo in
    in_unit_interval s && in_unit_interval l
    && Bool.eqb (s =? 0) (hi =? lo)%Z
    && Bool.eqb (l =? 0) (hi =? 0)%Z
    && Bool.eqb (l =? 1) (lo =? 255)%Z.

(** The name of the style and of the variable of a weight. *)
Definition style_name_of (name : string) (w : ColorWeight) : string :=
  "UI Colors/" ++ name ++ "/" ++ weight_label w.

Definition variable_name_of (name : string) (w : ColorWeight) : string :=
  name ++ "/" ++ weight_label w.

(** The closing notification. *)
Definition created_message (name : string) : string :=
  palette_emoji ++ " " ++ double_quote ++ name ++ double_quote
  ++ " styles created in the " ++ double_quote ++ "UI Colors"
  ++ double_quote ++ " group!".

(** The deviation of a seed from the target curves is bounded, and at
    every weight the new lightness and the new saturation are not
    negative, so that only the upper clamp can act. *)
Definition deviation_bounded (S L : float) : bool :=
  let w0 := baseWeight L in
  let ld := lightnessDelta L w0 in
  let sd := saturationDelta S w0 in
  (-0.06 <=? ld) && (ld <=? 0.055) && (0 <=? sd) && (sd <=? 0.2)
  && forallb
       (fun w =>
          let newLightness := TARGET_LIGHTNESS w + ld in
          let newSaturation := TARGET_SATURATION w * S + sd in
          (0 <=? newLightness) && (0 <=? newSaturation)
          && Leibniz.eqb (clampedL ld w) (Math_min2 1 newLightness)
          && Leibniz.eqb (clampedS S sd w) (Math_min2 1 newSaturation))
       ALL_WEIGHTS.

End PaletteNotions.

(** ** The range of the hue *)

Module HueNotions.

(** A hue in [0, 1). *)
Definition in_hue_range (h : float) : bool := (0 <=? h) && (h <? 1).

(** The hue of the six orders of three distinct channels, in the order of
    [strict_triple_ok]. *)
Definition hue_triple_ok (min d fmid : float) : bool :=
  let mid := fmid / 255 in
  let up := (mid - min) / d in
  let down := (min - mid) / d in
  in_hue_range ((up + 0) / 6) && in_hue_range ((down + 6) / 6)
  && in_hue_range ((up + 2) / 6) && in_hue_range ((down + 2) / 6)
  && in_hue_range ((up + 4) / 6) && in_hue_range ((down + 4) / 6).

(** All colours whose largest channel is [hi] and smallest is [lo < hi],
    with the third channel strictly between. *)
Definition hue_pair_ok (hi lo : Z) : bool :=
  if (hi <=? lo)%Z then true
  else
    let min := unit_channel lo in
    let d := unit_channel hi - min in
    all_from (Z.to_nat (hi - lo - 1)) (Number lo + 1) (hue_triple_ok min d).

(** The hue of the colours with two equal channels [a] and a third
    channel [b]. *)
Definition tied_hue_ok (a b : Z) : bool :=
  let fa := Number a in
  let fb := Number b in
  in_hue_range (fst (fst (rgbToHsl fa fa fb)))
  && in_hue_range (fst (fst (rgbToHsl fa fb fa)))
  && in_hue_range (fst (fst (rgbToHsl fb fa fa))).

End HueNotions.

(* ================================================================== *)
(** * The built-ins on sample arguments *)
(* ================================================================== *)

Module JSFacts.

Local Open Scope float_scope.

(** Ties round towards +infinity, also below zero. *)
Example Math_round_ties :
  Math_round 2.5 = 3 /\ Math_round (-2.5) = -2 /\ Math_round 0.5 = 1
  /\ Math_round (-0.5) = -0 /\ Math_round 254.5 = 255.
Proof. repeat split; reflexivity. Qed.

(** The largest number below one half rounds to 0, although adding 0.5 to
    it gives 1 in binary64. *)
Example Math_round_below_half :
  Math_round 0.49999999999999994 = 0
  /\ 0.49999999999999994 + 0.5 = 1.
Proof. split; reflexivity. Qed.

Example Math_round_fixed_points :
  Math_round 3 = 3 /\ Math_round (-0) = -0 /\ Math_round nan = nan
  /\ Math_round infinity = infinity
  /\ Math_round 4503599627370497 = 4503599627370497.
Proof. repeat split; reflexivity. Qed.

Example Math_max2_zeros_and_nan :
  Math_max2 (-0) 0 = 0 /\ Math_max2 0 (-0) = 0 /\ Math_min2 0 (-0) = -0
  /\ Math_max2 nan 1 = nan /\ Math_min2 1 nan = nan.
Proof. repeat split; reflexivity. Qed.

(** The decimal literals of the tables denote the nearest binary64 value,
    as they do in the source. *)
Example TARGET_LIGHTNESS_literals :
  TARGET_LIGHTNESS W50 = 0x1.f0a3d70a3d70ap-1
  /\ TARGET_LIGHTNESS W400 = 0x1.4cccccccccccdp-1
  /\ TARGET_SATURATION W50 = 0x1.999999999999ap-1.
Proof. repeat split; reflexivity. Qed.

Example shl_wraps_to_32_bits :
  (shl 1 24 = 16777216 /\ shl 255 24 = -16777216 /\ shl 1 32 = 1)%Z.
Proof. repeat split; reflexivity. Qed.

End JSFacts.

(* ================================================================== *)
(** * Properties of the grid preset *)
(* ================================================================== *)

Module BentoFacts.
Import Bento.

Local Open Scope Z_scope.

Lemma Array_from_defined {A} (n : Z) (f : Z -> A) :
  n < 2 ^ 32 ->
  Array_from n f = Some (map (fun i => f (Z.of_nat i)) (seq 0 (Z.to_nat n))).
Proof.
  intros Hn. unfold Array_from.
  destruct (Z.leb_spec (2 ^ 32) n) as [Hbig | _]; [lia | reflexivity].
Qed.

Lemma Array_from_elements {A} (n : Z) (f : Z -> A) (l : list A) :
  Array_from n f = Some l ->
  n < 2 ^ 32 /\ l = map (fun i => f (Z.of_nat i)) (seq 0 (Z.to_nat n)).
Proof.
  unfold Array_from.
  destruct (Z.leb_spec (2 ^ 32) n) as [Hbig | Hn]; [discriminate |].
  intros [= <-]. split; [exact Hn | reflexivity].
Qed.

Lemma Array_from_length {A} (n : Z) (f : Z -> A) (l : list A) :
  Array_from n f = Some l -> List.length l = Z.to_nat n.
Proof.
  intros E. apply Array_from_elements in E. destruct E as [_ ->].
  now rewrite length_map, length_seq.
Qed.

Lemma Array_from_nth {A} (n i : Z) (f : Z -> A) (l : list A) :
  Array_from n f = Some l ->
  0 <= i < n -> nth_error l (Z.to_nat i) = Some (f i).
Proof.
  intros E Hi. apply Array_from_elements in E. destruct E as [_ ->].
  rewrite nth_error_map, nth_error_seq.
  destruct (Nat.ltb_spec (Z.to_nat i) (Z.to_nat n)) as [_ | Hge]; [| lia].
  cbn. now rewrite Z2Nat.id by lia.
Qed.

(** A predicate that singles out one index of [seq] keeps one element. *)
Lemma filter_seq_single (p : nat -> bool) (k : nat) :
  forall n s : nat,
    (forall i, (s <= i < s + n)%nat -> p i = Nat.eqb i k) ->
    List.length (filter p (seq s n))
    = if ((s <=? k) && (k <? s + n))%nat then 1%nat else 0%nat.
Proof.
  induction n as [| n IH]; intros s Hp.
  - cbn [seq filter List.length].
    destruct (Nat.leb_spec s k), (Nat.ltb_spec k (s + 0));
      cbn [andb]; lia.
  - cbn [seq filter]. rewrite (Hp s) by lia.
    specialize (IH (S s) ltac:(intros i Hi; apply Hp; lia)).
    destruct (Nat.eqb_spec s k) as [-> | Hne]; cbn [List.length];
      rewrite IH.
    + destruct (Nat.leb_spec (S k) k), (Nat.leb_spec k k),
        (Nat.ltb_spec k (S k + n)), (Nat.ltb_spec k (k + S n));
        cbn [andb]; lia.
    + destruct (Nat.leb_spec (S s) k), (Nat.leb_spec s k),
        (Nat.ltb_spec k (S s + n)), (Nat.ltb_spec k (s + S n));
        cbn [andb]; lia.
Qed.

(** The grid preset, when the call returns. *)
Lemma grid_elements (r c : Z) (p : Preset) :
  grid r c = Some p ->
  r * c < 2 ^ 32
  /\ p = mkPreset r c
           (map (fun i => mkCell (Z.of_nat i / c) (Z.rem (Z.of_nat i) c) 1 1)
              (seq 0 (Z.to_nat (r * c)))).
Proof.
  unfold grid. destruct (Array_from (r * c) _) as [l |] eqn:E; [| discriminate].
  apply Array_from_elements in E. destruct E as [Hn ->].
  intros [= <-]. split; [exact Hn | reflexivity].
Qed.

Lemma grid_defined (r c : Z) :
  r * c < 2 ^ 32 -> exists p, grid r c = Some p.
Proof.
  intros Hn. unfold grid. rewrite Array_from_defined by exact Hn.
  eexists. reflexivity.
Qed.

(** In a grid with [c] columns, the cell of index [i] covers [(y, x)]
    exactly when [i = y * c + x]. *)
Lemma covers_grid_cell (c y x i : Z) :
  1 <= c -> 0 <= x < c -> 0 <= i ->
  covers y x (mkCell (i / c) (Z.rem i c) 1 1) = (i =? y * c + x).
Proof.
  intros Hc Hx Hi. unfold covers. cbn [row col rowSpan colSpan].
  rewrite Z.rem_mod_nonneg by lia.
  pose proof (Z.div_mod i c ltac:(lia)) as Hdm.
  pose proof (Z.mod_pos_bound i c ltac:(lia)) as Hm.
  destruct (Z.eqb_spec i (y * c + x)) as [-> | Hne].
  - assert ((y * c + x) / c = y) as ->
      by (rewrite Z.div_add_l, Z.div_small; lia).
    assert ((y * c + x) mod c = x) as ->
      by (rewrite Z.add_comm, Z.mod_add, Z.mod_small; lia).
    repeat (apply andb_true_intro; split); lia.
  - apply not_true_is_false. intros Hcov.
    repeat (apply andb_prop in Hcov; destruct Hcov as [Hcov ?]).
    apply Hne. nia.
Qed.

(** C10 (as amended): for rows r >= 1 and cols c >= 1 with r * c at most
    2^32 - 1, the largest length of an array, the grid preset has exactly
    r * c cells, all of span 1 x 1, listed in row-major order (cell i sits
    at row floor(i / c) and column i mod c), and every position (row, col)
    with 0 <= row < r and 0 <= col < c is covered by exactly one cell. *)
Theorem grid_tiles_rows_by_cols (r c : Z) :
  1 <= r -> 1 <= c -> r * c < 2 ^ 32 ->
  exists p,
    grid r c = Some p /\
    rows p = r /\ cols p = c /\
    Z.of_nat (List.length (cells p)) = r * c /\
    (forall cell, In cell (cells p) ->
       rowSpan cell = 1 /\ colSpan cell = 1 /\
       0 <= row cell < r /\ 0 <= col cell < c) /\
    (forall i, 0 <= i < r * c ->
       nth_error (cells p) (Z.to_nat i)
       = Some (mkCell (i / c) (i mod c) 1 1)) /\
    (forall y x, 0 <= y < r -> 0 <= x < c ->
       List.length (filter (covers y x) (cells p)) = 1%nat).
Proof.
  intros Hr Hc Hn.
  destruct (grid_defined r c Hn) as [p Hp]. exists p.
  split; [exact Hp |].
  destruct (grid_elements r c p Hp) as [_ ->]. cbn [rows cols cells].
  split; [reflexivity |]. split; [reflexivity |].
  split; [rewrite length_map, length_seq; nia |].
  split; [| split].
  - intros cell Hin.
    apply in_map_iff in Hin. destruct Hin as [i [<- Hi]].
    apply in_seq in Hi. cbn [rowSpan colSpan row col].
    assert (0 <= Z.of_nat i < r * c) as Hb by nia.
    rewrite Z.rem_mod_nonneg by lia.
    pose proof (Z.mod_pos_bound (Z.of_nat i) c ltac:(lia)).
    pose proof (Z.div_pos (Z.of_nat i) c ltac:(lia) ltac:(lia)).
    assert (Z.of_nat i / c < r) by (apply Z.div_lt_upper_bound; nia).
    lia.
  - intros i Hi.
    rewrite nth_error_map, nth_error_seq.
    destruct (Nat.ltb_spec (Z.to_nat i) (Z.to_nat (r * c))) as [_ | Hge];
      [| lia].
    cbn [Nat.add option_map]. rewrite Z2Nat.id by lia.
    now rewrite Z.rem_mod_nonneg by lia.
  - intros y x Hy Hx.
    assert (Hfm : forall (l : list nat) (f : nat -> CellSpan) q,
               List.length (filter q (map f l))
               = List.length (filter (fun i => q (f i)) l)).
    { induction l as [| a l IH]; intros f q; cbn; [reflexivity |].
      destruct (q (f a)); cbn; now rewrite IH. }
    rewrite Hfm.
    rewrite (filter_seq_single _ (Z.to_nat (y * c + x))).
    + destruct (Nat.leb_spec 0 (Z.to_nat (y * c + x))); [| lia].
      destruct (Nat.ltb_spec (Z.to_nat (y * c + x)) (0 + Z.to_nat (r * c)));
        [reflexivity | nia].
    + intros i _. rewrite covers_grid_cell by lia.
      destruct (Z.eqb_spec (Z.of_nat i) (y * c + x)) as [E | E],
        (Nat.eqb_spec i (Z.to_nat (y * c + x))) as [E' | E'];
        try reflexivity; exfalso; nia.
Qed.

Lemma grid_tiles_rows_by_cols_2x3 :
  exists p,
    grid 2 3 = Some p
    /\ Z.of_nat (List.length (cells p)) = 2 * 3
    /\ List.length (filter (covers 1 2) (cells p)) = 1%nat.
Proof.
  destruct (grid_tiles_rows_by_cols 2 3 ltac:(lia) ltac:(lia) ltac:(lia))
    as (p & Hp & _ & _ & Hlen & _ & _ & Hcov).
  exists p. split; [exact Hp |]. split; [exact Hlen |]. apply Hcov; lia.
Defined.

(** C10 (as stated) fails: with 65536 rows and 65536 columns the array of
    cells would have 2^32 elements; the call throws a RangeError and
    returns no cells at all. *)
Lemma grid_65536_by_65536_throws :
  1 <= 65536
  /\ grid 65536 65536 = None
  /\ ~ (exists p,
          grid 65536 65536 = Some p
          /\ Z.of_nat (List.length (cells p)) = 65536 * 65536).
Proof.
  assert (grid 65536 65536 = None) as Hnone by reflexivity.
  split; [lia |]. split; [exact Hnone |].
  intros (p & Hp & _). rewrite Hnone in Hp. discriminate Hp.
Qed.

End BentoFacts.

(* ================================================================== *)
(** * Properties of the hexadecimal conversions *)
(* ================================================================== *)

Module HexFacts.

Local Open Scope Z_scope.

(** ** Character-level facts, by enumeration of the 256 characters *)

Lemma matches_af_d_i_hex_digit (c : ascii) :
  matches_af_d_i c = is_hex_digit c.
Proof. each_ascii c; reflexivity. Qed.

Lemma hex_digit_not_hash (c : ascii) :
  is_hex_digit c = true -> Ascii.eqb c "#" = false /\ Ascii.eqb "#" c = false.
Proof. each_ascii c; cbv; intuition congruence. Qed.

Lemma hex_digit_value_spec (c : ascii) :
  is_hex_digit c = true ->
  exists v, hex_digit_value c = Some v /\ 0 <= v < 16
            /\ hex_digit v = to_lower c.
Proof.
  each_ascii c; intros H; try discriminate H;
    (eexists; split; [reflexivity | split; [cbv; intuition congruence |]]);
    reflexivity.
Qed.

Lemma hex_digit_is_hex (v : Z) :
  0 <= v < 16 ->
  is_hex_digit (hex_digit v) = true /\ hex_digit_value (hex_digit v) = Some v.
Proof.
  intros Hv.
  assert (v = 0 \/ v = 1 \/ v = 2 \/ v = 3 \/ v = 4 \/ v = 5 \/ v = 6
          \/ v = 7 \/ v = 8 \/ v = 9 \/ v = 10 \/ v = 11 \/ v = 12
          \/ v = 13 \/ v = 14 \/ v = 15) as Hcases by lia.
  repeat (destruct Hcases as [-> | Hcases]; [split; reflexivity |]).
  subst v. split; reflexivity.
Qed.

(** ** The matcher on the two patterns *)

Lemma exec_hex_classes (n : nat) :
  forall s,
    exec (repeat HexClass n) s
    = if (List.length (list_ascii_of_string s) =? n)%nat
         && forallb is_hex_digit (list_ascii_of_string s)
      then Some (list_ascii_of_string s) else None.
Proof.
  induction n as [| n IH]; intros [| c s]; cbn [repeat exec]; try reflexivity.
  rewrite IH, matches_af_d_i_hex_digit.
  cbn [list_ascii_of_string List.length forallb Nat.eqb].
  destruct (is_hex_digit c); cbn [andb]; [| now rewrite andb_false_r].
  destruct ((List.length (list_ascii_of_string s) =? n)%nat
            && forallb is_hex_digit (list_ascii_of_string s)); reflexivity.
Qed.

Lemma exec_optional_hash (n : nat) (s : string) :
  exec (Opt "#" :: repeat HexClass (S n)) s
  = exec (repeat HexClass (S n)) (strip_hash s).
Proof.
  destruct s as [| c s]; cbn [exec strip_hash]; [reflexivity |].
  rewrite (Ascii.eqb_sym c "#").
  destruct (Ascii.eqb_spec "#"%char c) as [<- | Hne]; [| reflexivity].
  destruct (exec (repeat HexClass (S n)) s); reflexivity.
Qed.

Lemma parseInt16_pair (a b : ascii) (va vb : Z) :
  hex_digit_value a = Some va -> hex_digit_value b = Some vb ->
  parseInt16 [a; b] = Some (16 * va + vb).
Proof.
  intros Ha Hb. unfold parseInt16. cbn [parseInt16_from].
  rewrite Ha, Hb. reflexivity.
Qed.

(** [hexToRgb] by the shape of its argument. *)
Lemma hexToRgb_by_shape (s : string) :
  hexToRgb s
  = match list_ascii_of_string (strip_hash s) with
    | [r; g; b] =>
        if forallb is_hex_digit [r; g; b]
        then channels_of [r; r; g; g; b; b] else None
    | [r1; r2; g1; g2; b1; b2] =>
        if forallb is_hex_digit [r1; r2; g1; g2; b1; b2]
        then channels_of [r1; r2; g1; g2; b1; b2] else None
    | _ => None
    end.
Proof.
  unfold hexToRgb, expand_shorthand.
  change shorthandRegex with (Opt "#" :: repeat HexClass 3).
  change fullRegex with (Opt "#" :: repeat HexClass 6).
  rewrite (exec_optional_hash 2 s), exec_hex_classes.
  destruct (list_ascii_of_string (strip_hash s))
    as [| c1 [| c2 [| c3 [| c4 [| c5 [| c6 [| c7 body]]]]]]] eqn:Hbody;
    cbn [List.length Nat.eqb andb];
    try (rewrite (exec_optional_hash 5 s), exec_hex_classes, Hbody;
         cbn [List.length Nat.eqb andb]; reflexivity).
  - (* three digits: the shorthand is expanded *)
    destruct (forallb is_hex_digit [c1; c2; c3]) eqn:Hhex.
    + cbn [string_of_list_ascii].
      rewrite (exec_optional_hash 5), exec_hex_classes.
      cbn [forallb] in Hhex.
      apply andb_prop in Hhex. destruct Hhex as [H1 Hhex].
      apply andb_prop in Hhex. destruct Hhex as [H2 Hhex].
      apply andb_prop in Hhex. destruct Hhex as [H3 _].
      cbn [strip_hash]. rewrite (proj1 (hex_digit_not_hash c1 H1)).
      cbn [list_ascii_of_string List.length Nat.eqb forallb andb].
      rewrite H1, H2, H3. reflexivity.
    + rewrite (exec_optional_hash 5 s), exec_hex_classes, Hbody.
      reflexivity.
  - (* six digits *)
    rewrite (exec_optional_hash 5 s), exec_hex_classes, Hbody.
    cbn [List.length Nat.eqb andb].
    destruct (forallb is_hex_digit [c1; c2; c3; c4; c5; c6]); reflexivity.
Qed.

Lemma channels_of_hex (d1 d2 d3 d4 d5 d6 : ascii) :
  forallb is_hex_digit [d1; d2; d3; d4; d5; d6] = true ->
  exists v1 v2 v3 v4 v5 v6,
    channels_of [d1; d2; d3; d4; d5; d6]
    = Some (mkRGB (16 * v1 + v2) (16 * v3 + v4) (16 * v5 + v6))
    /\ (0 <= v1 < 16 /\ 0 <= v2 < 16 /\ 0 <= v3 < 16
        /\ 0 <= v4 < 16 /\ 0 <= v5 < 16 /\ 0 <= v6 < 16)
    /\ map hex_digit [v1; v2; v3; v4; v5; v6]
       = lowercase [d1; d2; d3; d4; d5; d6].
Proof.
  intros H. cbn [forallb] in H.
  repeat (apply andb_prop in H; let H' := fresh "Hd" in destruct H as [H' H]).
  destruct (hex_digit_value_spec d1 Hd) as (v1 & E1 & B1 & L1).
  destruct (hex_digit_value_spec d2 Hd0) as (v2 & E2 & B2 & L2).
  destruct (hex_digit_value_spec d3 Hd1) as (v3 & E3 & B3 & L3).
  destruct (hex_digit_value_spec d4 Hd2) as (v4 & E4 & B4 & L4).
  destruct (hex_digit_value_spec d5 Hd3) as (v5 & E5 & B5 & L5).
  destruct (hex_digit_value_spec d6 Hd4) as (v6 & E6 & B6 & L6).
  exists v1, v2, v3, v4, v5, v6. unfold channels_of.
  rewrite (parseInt16_pair _ _ _ _ E1 E2), (parseInt16_pair _ _ _ _ E3 E4),
    (parseInt16_pair _ _ _ _ E5 E6).
  split; [reflexivity |]. split; [tauto |].
  unfold lowercase. cbn [map]. now rewrite L1, L2, L3, L4, L5, L6.
Qed.

Lemma Some_RGB_inj (a b c r g bl : Z) :
  Some (mkRGB a b c) = Some (mkRGB r g bl) -> a = r /\ b = g /\ c = bl.
Proof. intros [= -> -> ->]. auto. Qed.

(** Every parsed colour has 8-bit channels. *)
Lemma hexToRgb_channels (s : string) (c : RGB) :
  hexToRgb s = Some c ->
  0 <= red c <= 255 /\ 0 <= green c <= 255 /\ 0 <= blue c <= 255.
Proof.
  destruct c as [r g b]; cbn [red green blue].
  rewrite hexToRgb_by_shape.
  destruct (list_ascii_of_string (strip_hash s))
    as [| c1 [| c2 [| c3 [| c4 [| c5 [| c6 [| c7 body]]]]]]];
    try discriminate.
  - destruct (forallb is_hex_digit [c1; c2; c3]) eqn:Hhex; [| discriminate].
    assert (forallb is_hex_digit [c1; c1; c2; c2; c3; c3] = true) as H6.
    { cbn [forallb] in *.
      repeat (apply andb_prop in Hhex;
              let H' := fresh "Hd" in destruct Hhex as [H' Hhex]).
      now rewrite Hd, Hd0, Hd1. }
    destruct (channels_of_hex _ _ _ _ _ _ H6)
      as (v1 & v2 & v3 & v4 & v5 & v6 & -> & B & _).
    intros E. apply Some_RGB_inj in E. lia.
  - destruct (forallb is_hex_digit [c1; c2; c3; c4; c5; c6]) eqn:Hhex;
      [| discriminate].
    destruct (channels_of_hex _ _ _ _ _ _ Hhex)
      as (v1 & v2 & v3 & v4 & v5 & v6 & -> & B & _).
    intros E. apply Some_RGB_inj in E. lia.
Qed.

(** ** Printing in radix 16 *)

Lemma hex_digits_step (fuel : nat) (m v : Z) (acc : string) :
  0 < m -> 0 <= v < 16 ->
  hex_digits (S fuel) (16 * m + v) acc
  = hex_digits fuel m (String (hex_digit v) acc).
Proof.
  intros Hm Hv. cbn [hex_digits].
  assert ((16 * m + v) / 16 = m) as ->
    by (rewrite Z.mul_comm, Z.div_add_l, Z.div_small; lia).
  assert ((16 * m + v) mod 16 = v) as ->
    by (rewrite Z.add_comm, Z.mul_comm, Z.mod_add, Z.mod_small; lia).
  destruct (Z.eqb_spec m 0); [lia | reflexivity].
Qed.

Lemma hex_digits_last (fuel : nat) (v : Z) (acc : string) :
  0 <= v < 16 ->
  hex_digits (S fuel) v acc = String (hex_digit v) acc.
Proof.
  intros Hv. cbn [hex_digits].
  rewrite (Z.div_small v 16), (Z.mod_small v 16) by lia. reflexivity.
Qed.

Lemma shl_small (x n : Z) :
  0 <= n < 32 -> 0 <= x -> x * 2 ^ n < 2 ^ 31 -> shl x n = x * 2 ^ n.
Proof.
  intros Hn Hx Hb. unfold shl, ToInt32.
  assert (1 <= 2 ^ n) by (apply (Z.pow_le_mono_r 2 0 n); lia).
  rewrite (Z.mod_small n 32) by lia.
  rewrite (Z.mod_small (x + 2 ^ 31)) by nia.
  replace (x + 2 ^ 31 - 2 ^ 31) with x by lia.
  rewrite Z.shiftl_mul_pow2 by lia.
  rewrite Z.mod_small by lia. lia.
Qed.

(** The digits printed by [rgbToHex] for channels given by their nibbles. *)
Lemma rgbToHex_nibbles (v1 v2 v3 v4 v5 v6 : Z) :
  0 <= v1 < 16 -> 0 <= v2 < 16 -> 0 <= v3 < 16 ->
  0 <= v4 < 16 -> 0 <= v5 < 16 -> 0 <= v6 < 16 ->
  rgbToHex (16 * v1 + v2) (16 * v3 + v4) (16 * v5 + v6)
  = String "#" (string_of_list_ascii (map hex_digit [v1; v2; v3; v4; v5; v6])).
Proof.
  intros B1 B2 B3 B4 B5 B6. unfold rgbToHex.
  rewrite (shl_small 1 24), (shl_small _ 16), (shl_small _ 8) by lia.
  set (n := 1 * 2 ^ 24 + (16 * v1 + v2) * 2 ^ 16 + (16 * v3 + v4) * 2 ^ 8
            + (16 * v5 + v6)).
  assert (n = 16 * (16 * (16 * (16 * (16 * (16 * 1 + v1) + v2) + v3) + v4)
                    + v5) + v6) as Hn by (subst n; lia).
  assert (Z.log2 n = 24) as Hlog
    by (apply Z.log2_unique; subst n; lia).
  unfold toString16.
  destruct (Z.ltb_spec n 0) as [Hneg | _]; [subst n; lia |].
  rewrite Hlog. change (Z.to_nat 24) with 24%nat. rewrite Hn.
  rewrite !hex_digits_step by lia.
  rewrite hex_digits_last by lia.
  reflexivity.
Qed.

(** Split an 8-bit channel into its two nibbles. *)
Lemma nibbles_of_channel (r : Z) :
  0 <= r <= 255 ->
  r = 16 * (r / 16) + r mod 16 /\ 0 <= r / 16 < 16 /\ 0 <= r mod 16 < 16.
Proof.
  intros Hr.
  pose proof (Z.div_mod r 16 ltac:(lia)).
  pose proof (Z.mod_pos_bound r 16 ltac:(lia)).
  assert (0 <= r / 16) by (apply Z.div_pos; lia).
  assert (r / 16 < 16) by (apply Z.div_lt_upper_bound; lia).
  lia.
Qed.

(** ** Acceptance and round trip *)

(** C5: hexToRgb returns a colour exactly when its argument is, after an
    optional leading '#', exactly 3 or exactly 6 hexadecimal digits in
    either case, and the error result for every other string; a 3-digit
    shorthand parses to the colour of its digit-duplicated 6-digit form, so
    '#0f0' parses like '#00ff00'. *)
Theorem hexToRgb_accepts_exactly_valid_hex :
  (forall s, (exists c, hexToRgb s = Some c) <-> valid_hex_string s = true)
  /\ (forall s, hexToRgb s = None <-> valid_hex_string s = false)
  /\ (forall r g b : ascii,
        hexToRgb (string_of_list_ascii [r; g; b])
        = hexToRgb (string_of_list_ascii [r; r; g; g; b; b])
        /\ hexToRgb (String "#" (string_of_list_ascii [r; g; b]))
           = hexToRgb (String "#" (string_of_list_ascii [r; r; g; g; b; b])))
  /\ hexToRgb "#0f0" = Some (mkRGB 0 255 0)
  /\ hexToRgb "#00ff00" = Some (mkRGB 0 255 0).
Proof.
  assert (Hiff : forall s,
             (exists c, hexToRgb s = Some c) <-> valid_hex_string s = true).
  { intros s. rewrite hexToRgb_by_shape. unfold valid_hex_string. cbv zeta.
    destruct (list_ascii_of_string (strip_hash s))
      as [| c1 [| c2 [| c3 [| c4 [| c5 [| c6 [| c7 body]]]]]]];
      cbn [List.length Nat.eqb orb andb];
      try (split; [intros [c Hc]; discriminate Hc | intros Hc; discriminate Hc]).
    - destruct (forallb is_hex_digit [c1; c2; c3]) eqn:Hhex;
        [| split; [intros [c Hc]; discriminate Hc | intros Hc; discriminate Hc]].
      split; [reflexivity | intros _].
      assert (forallb is_hex_digit [c1; c1; c2; c2; c3; c3] = true) as H6.
      { cbn [forallb] in *.
        repeat (apply andb_prop in Hhex;
                let H' := fresh "Hd" in destruct Hhex as [H' Hhex]).
        now rewrite Hd, Hd0, Hd1. }
      destruct (channels_of_hex _ _ _ _ _ _ H6)
        as (v1 & v2 & v3 & v4 & v5 & v6 & -> & _). eauto.
    - destruct (forallb is_hex_digit [c1; c2; c3; c4; c5; c6]) eqn:Hhex;
        [| split; [intros [c Hc]; discriminate Hc | intros Hc; discriminate Hc]].
      split; [reflexivity | intros _].
      destruct (channels_of_hex _ _ _ _ _ _ Hhex)
        as (v1 & v2 & v3 & v4 & v5 & v6 & -> & _). eauto. }
  split; [exact Hiff |]. split; [| split; [| split; reflexivity]].
  - intros s. specialize (Hiff s).
    destruct (hexToRgb s) as [c |], (valid_hex_string s); split;
      intros H; try reflexivity; try discriminate H.
    + destruct Hiff as [Hiff _]. discriminate (Hiff (ex_intro _ c eq_refl)).
    + destruct Hiff as [_ [c Hc]]; [reflexivity | discriminate Hc].
  - intros r g b. rewrite !hexToRgb_by_shape. split.
    + cbn [string_of_list_ascii strip_hash].
      destruct (Ascii.eqb r "#"); cbn [list_ascii_of_string forallb];
        [reflexivity |].
      destruct (is_hex_digit r), (is_hex_digit g), (is_hex_digit b);
        reflexivity.
    + cbn [string_of_list_ascii strip_hash].
      change (Ascii.eqb "#" "#") with true.
      cbn [list_ascii_of_string forallb].
      destruct (is_hex_digit r), (is_hex_digit g), (is_hex_digit b);
        reflexivity.
Qed.

(** C6: for six hexadecimal digits, with or without the leading '#',
    rgbToHex of the channels read by hexToRgb is '#' followed by the same
    six digits in lower case (so it is the argument up to letter case, '#'
    prefixed and zero-padded); and hexToRgb reads back exactly the channels
    that rgbToHex printed, for all 8-bit channels. *)
Theorem rgbToHex_hexToRgb_round_trip :
  (forall d1 d2 d3 d4 d5 d6 : ascii,
     forallb is_hex_digit [d1; d2; d3; d4; d5; d6] = true ->
     forall x,
       x = string_of_list_ascii [d1; d2; d3; d4; d5; d6]
       \/ x = String "#" (string_of_list_ascii [d1; d2; d3; d4; d5; d6]) ->
       exists c,
         hexToRgb x = Some c
         /\ rgbToHex (red c) (green c) (blue c)
            = String "#" (string_of_list_ascii
                            (lowercase [d1; d2; d3; d4; d5; d6])))
  /\ (forall r g b : Z,
        0 <= r <= 255 -> 0 <= g <= 255 -> 0 <= b <= 255 ->
        String.length (rgbToHex r g b) = 7%nat
        /\ hexToRgb (rgbToHex r g b) = Some (mkRGB r g b)).
Proof.
  split.
  - intros d1 d2 d3 d4 d5 d6 Hhex x Hx.
    destruct (channels_of_hex _ _ _ _ _ _ Hhex)
      as (v1 & v2 & v3 & v4 & v5 & v6 & Hch & B & Hlow).
    exists (mkRGB (16 * v1 + v2) (16 * v3 + v4) (16 * v5 + v6)).
    cbn [red green blue]. rewrite rgbToHex_nibbles by tauto.
    rewrite Hlow. split; [| reflexivity].
    rewrite hexToRgb_by_shape.
    assert (is_hex_digit d1 = true) as H1
      by (cbn [forallb] in Hhex; now apply andb_prop in Hhex).
    destruct Hx as [-> | ->]; cbn [string_of_list_ascii strip_hash].
    + rewrite (proj1 (hex_digit_not_hash d1 H1)).
      cbn [list_ascii_of_string]. now rewrite Hhex.
    + change (Ascii.eqb "#" "#") with true.
      cbn [list_ascii_of_string]. now rewrite Hhex.
  - intros r g b Hr Hg Hb.
    destruct (nibbles_of_channel r Hr) as (Er & Br1 & Br2).
    destruct (nibbles_of_channel g Hg) as (Eg & Bg1 & Bg2).
    destruct (nibbles_of_channel b Hb) as (Eb & Bb1 & Bb2).
    rewrite Er, Eg, Eb at 1 2.
    rewrite rgbToHex_nibbles by assumption.
    split; [reflexivity |].
    rewrite hexToRgb_by_shape. cbn [map string_of_list_ascii strip_hash].
    change (Ascii.eqb "#" "#") with true.
    cbn [list_ascii_of_string forallb].
    destruct (hex_digit_is_hex _ Br1) as [-> V1].
    destruct (hex_digit_is_hex _ Br2) as [-> V2].
    destruct (hex_digit_is_hex _ Bg1) as [-> V3].
    destruct (hex_digit_is_hex _ Bg2) as [-> V4].
    destruct (hex_digit_is_hex _ Bb1) as [-> V5].
    destruct (hex_digit_is_hex _ Bb2) as [-> V6].
    cbn [andb]. unfold channels_of.
    rewrite (parseInt16_pair _ _ _ _ V1 V2), (parseInt16_pair _ _ _ _ V3 V4),
      (parseInt16_pair _ _ _ _ V5 V6).
    now rewrite <- Er, <- Eg, <- Eb.
Qed.

Lemma rgbToHex_hexToRgb_round_trip_blue :
  (exists c,
     hexToRgb "#3B82F6" = Some c
     /\ rgbToHex (red c) (green c) (blue c) = "#3b82f6")
  /\ hexToRgb (rgbToHex 59 130 246) = Some (mkRGB 59 130 246).
Proof.
  destruct rgbToHex_hexToRgb_round_trip as [Hfwd Hback]. split.
  - apply (Hfwd "3"%char "B"%char "8"%char "2"%char "F"%char "6"%char
             eq_refl "#3B82F6").
    right. reflexivity.
  - apply (Hback 59 130 246); lia.
Defined.

End HexFacts.

(* ================================================================== *)
(** * Properties of the colour arithmetic *)
(* ================================================================== *)

Module ColorFacts.

Local Open Scope float_scope.

(** ** Enumerating the 8-bit channel values *)

Lemma channel_values_complete (z : Z) :
  (0 <= z <= 255)%Z -> In z channel_values.
Proof.
  intros Hz. unfold channel_values. apply in_map_iff.
  exists (Z.to_nat z). split; [lia | apply in_seq; lia].
Qed.

Lemma for_all_channels (P : Z -> bool) :
  forallb P channel_values = true ->
  forall z, (0 <= z <= 255)%Z -> P z = true.
Proof.
  intros H z Hz. rewrite forallb_forall in H.
  apply H, channel_values_complete, Hz.
Qed.

Lemma for_all_channel_pairs (P : Z -> Z -> bool) :
  forallb (fun a => forallb (P a) channel_values) channel_values = true ->
  forall a b, (0 <= a <= 255)%Z -> (0 <= b <= 255)%Z -> P a b = true.
Proof.
  intros H a b Ha Hb.
  apply (for_all_channels (P a)); [| exact Hb].
  apply (for_all_channels (fun a => forallb (P a) channel_values) H a Ha).
Qed.

Lemma order_kept_everywhere :
  forallb (fun a => forallb (order_kept a) channel_values) channel_values
  = true.
Proof. vm_compute. reflexivity. Qed.

Section Channels.

Variables a b : Z.
Hypothesis Ha : (0 <= a <= 255)%Z.
Hypothesis Hb : (0 <= b <= 255)%Z.

Lemma unit_channel_ltb :
  (unit_channel a <? unit_channel b) = (a <? b)%Z.
Proof.
  pose proof (for_all_channel_pairs _ order_kept_everywhere a b Ha Hb) as H.
  unfold order_kept in H.
  apply andb_prop in H. destruct H as [H _].
  apply andb_prop in H. destruct H as [H _].
  now apply Bool.eqb_prop in H.
Qed.

Lemma unit_channel_eqb :
  (unit_channel a =? unit_channel b) = (a =? b)%Z.
Proof.
  pose proof (for_all_channel_pairs _ order_kept_everywhere a b Ha Hb) as H.
  unfold order_kept in H.
  apply andb_prop in H. destruct H as [H _].
  apply andb_prop in H. destruct H as [_ H].
  now apply Bool.eqb_prop in H.
Qed.

Lemma unit_channel_zero :
  (unit_channel a =? 0) = (a =? 0)%Z.
Proof.
  pose proof (for_all_channel_pairs _ order_kept_everywhere a b Ha Hb) as H.
  unfold order_kept in H.
  apply andb_prop in H. destruct H as [_ H].
  now apply Bool.eqb_prop in H.
Qed.

End Channels.

Lemma Math_max2_channels (a b : Z) :
  (0 <= a <= 255)%Z -> (0 <= b <= 255)%Z ->
  Math_max2 (unit_channel a) (unit_channel b) = unit_channel (Z.max a b).
Proof.
  intros Ha Hb. unfold Math_max2.
  rewrite (unit_channel_ltb a b), (unit_channel_ltb b a),
    (unit_channel_eqb a b), (unit_channel_zero a a) by assumption.
  destruct (Z.ltb_spec a b); [now rewrite Z.max_r by lia |].
  destruct (Z.ltb_spec b a); [now rewrite Z.max_l by lia |].
  assert (a = b) as <- by lia. rewrite Z.eqb_refl, Z.max_id.
  destruct (Z.eqb_spec a 0) as [-> | _]; reflexivity.
Qed.

Lemma Math_min2_channels (a b : Z) :
  (0 <= a <= 255)%Z -> (0 <= b <= 255)%Z ->
  Math_min2 (unit_channel a) (unit_channel b) = unit_channel (Z.min a b).
Proof.
  intros Ha Hb. unfold Math_min2.
  rewrite (unit_channel_ltb a b), (unit_channel_ltb b a),
    (unit_channel_eqb a b), (unit_channel_zero a a) by assumption.
  destruct (Z.ltb_spec a b); [now rewrite Z.min_l by lia |].
  destruct (Z.ltb_spec b a); [now rewrite Z.min_r by lia |].
  assert (a = b) as <- by lia. rewrite Z.eqb_refl, Z.min_id.
  destruct (Z.eqb_spec a 0) as [-> | _]; reflexivity.
Qed.

Lemma rgbToHsl_of_extremes (r g b : Z) :
  (0 <= r <= 255)%Z -> (0 <= g <= 255)%Z -> (0 <= b <= 255)%Z ->
  let hi := Z.max (Z.max r g) b in
  let lo := Z.min (Z.min r g) b in
  exists h,
    rgbToHsl (Number r) (Number g) (Number b)
    = (h, seed_saturation hi lo, seed_lightness hi lo).
Proof.
  intros Hr Hg Hb hi lo.
  unfold rgbToHsl, Math_max, Math_min. cbv zeta.
  fold (unit_channel r). fold (unit_channel g). fold (unit_channel b).
  rewrite (Math_max2_channels r g), (Math_min2_channels r g) by assumption.
  rewrite Math_max2_channels, Math_min2_channels by lia.
  fold hi. fold lo. unfold seed_saturation, seed_lightness. cbv zeta.
  destruct (negb (unit_channel hi =? unit_channel lo));
    eexists; reflexivity.
Qed.

(** Every parsed seed is described by its extreme channels. *)
Lemma seed_hsl_of_extremes (hex : string) (c : RGB) :
  hexToRgb hex = Some c ->
  exists hi lo h,
    (0 <= lo <= hi)%Z /\ (hi <= 255)%Z
    /\ seed_hsl c = (h, seed_saturation hi lo, seed_lightness hi lo).
Proof.
  intros Hparse.
  destruct (HexFacts.hexToRgb_channels hex c Hparse) as (Hr & Hg & Hb).
  destruct (rgbToHsl_of_extremes _ _ _ Hr Hg Hb) as [h Hh].
  exists (Z.max (Z.max (red c) (green c)) (blue c)),
    (Z.min (Z.min (red c) (green c)) (blue c)), h.
  split; [lia |]. split; [lia |]. exact Hh.
Qed.

(** A property of (saturation, lightness) checked on all pairs of extreme
    channels holds of every parsed seed. *)
Lemma for_all_seeds (P : float -> float -> bool) :
  seeds_satisfy P = true ->
  forall hex c H S L,
    hexToRgb hex = Some c -> seed_hsl c = (H, S, L) -> P S L = true.
Proof.
  intros Hall hex c H S L Hparse Hhsl.
  destruct (seed_hsl_of_extremes hex c Hparse) as (hi & lo & h & Hlo & Hhi & E).
  rewrite Hhsl in E. injection E as _ -> ->.
  pose proof (for_all_channel_pairs
                (fun hi lo =>
                   if (hi <? lo)%Z then true
                   else P (seed_saturation hi lo) (seed_lightness hi lo))
                Hall hi lo ltac:(lia) ltac:(lia)) as Hpair.
  cbv beta in Hpair.
  destruct (Z.ltb_spec hi lo) as [Hlt | _]; [lia | exact Hpair].
Qed.

Lemma all_weights_listed (w : ColorWeight) : In w ALL_WEIGHTS.
Proof. destruct w; cbn; tauto. Qed.

(** ** The document after the palette loop *)

Lemma update_at_last {A} (f : A -> A) (l : list A) (x : A) :
  update_at (List.length l) f (l ++ [x])%list = (l ++ [f x])%list.
Proof. induction l as [| y l IH]; cbn; [reflexivity | now rewrite IH]. Qed.

Section PaletteLoop.

Variables (name : string) (collection : nat).
Variables (inputH inputS lightnessDelta saturationDelta : float).

Let step := palette_step name collection inputH inputS lightnessDelta
              saturationDelta.
Let style := style_for name inputH inputS lightnessDelta saturationDelta.
Let variable :=
  variable_for name collection inputH inputS lightnessDelta saturationDelta.

Lemma palette_step_effect (fg : Figma) (w : ColorWeight) :
  step fg w
  = mkFigma (collections fg)
      (paintStyles fg ++ [style w])%list
      (variables fg ++ [variable (first_mode collection fg) w])%list
      (notifications fg) (closed fg).
Proof.
  unfold step, palette_step, createPaintStyle, set_style, createVariable,
    setValueForMode, first_mode, style, variable, style_for, variable_for.
  cbn [collections paintStyles variables notifications closed].
  rewrite !update_at_last.
  cbn [style_name style_paints variable_name variable_collection
       variable_values app].
  reflexivity.
Qed.

Lemma palette_loop_effect (ws : list ColorWeight) :
  forall fg,
    fold_left step ws fg
    = mkFigma (collections fg)
        (paintStyles fg ++ map style ws)%list
        (variables fg ++ map (variable (first_mode collection fg)) ws)%list
        (notifications fg) (closed fg).
Proof.
  induction ws as [| w ws IH]; intros fg; cbn [fold_left map].
  - rewrite !app_nil_r. now destruct fg.
  - rewrite IH, palette_step_effect.
    cbn [collections paintStyles variables notifications closed].
    unfold first_mode at 2. cbn [collections].
    fold (first_mode collection fg).
    now rewrite <- !app_assoc.
Qed.

End PaletteLoop.

(** The handler on a seed that parses. *)
Lemma onmessage_valid_seed (name hex : string) (fg : Figma) (c : RGB)
  (H S L : float) :
  hexToRgb hex = Some c -> seed_hsl c = (H, S, L) ->
  let w0 := baseWeight L in
  let id := List.length (collections fg) in
  let ld := lightnessDelta L w0 in
  let sd := saturationDelta S w0 in
  let out := onmessage (GeneratePalette name hex) fg in
  collections out = (collections fg ++ [mkCollection "UI Colors" [id]])%list
  /\ paintStyles out
     = (paintStyles fg ++ map (style_for name H S ld sd) ALL_WEIGHTS)%list
  /\ variables out
     = (variables fg
        ++ map (variable_for name id H S ld sd id) ALL_WEIGHTS)%list
  /\ closed out = true.
Proof.
  intros Hparse Hhsl w0 id ld sd out. subst out.
  unfold onmessage, createVariableCollection. rewrite Hparse.
  fold (seed_hsl c). rewrite Hhsl.
  unfold generate_styles. rewrite palette_loop_effect.
  unfold closePlugin, notify, first_mode.
  cbn [collections paintStyles variables notifications closed].
  rewrite nth_error_app2, Nat.sub_diag by reflexivity.
  cbn [nth_error collection_modes hd].
  repeat split; reflexivity.
Qed.

(** The handler on a seed that does not parse. *)
Lemma onmessage_invalid_seed (name hex : string) (fg : Figma) :
  hexToRgb hex = None ->
  onmessage (GeneratePalette name hex) fg
  = mkFigma
      (collections fg
       ++ [mkCollection "UI Colors" [List.length (collections fg)]])%list
      (paintStyles fg) (variables fg)
      (notifications fg
       ++ [mkNotification "Invalid hex code provided." true])%list
      (closed fg).
Proof.
  intros Hparse. unfold onmessage, createVariableCollection.
  rewrite Hparse. reflexivity.
Qed.

(** ** The ramp of a parsed seed *)

Lemma clamped_in_range_everywhere :
  seeds_satisfy clamped_in_range = true.
Proof. vm_compute. reflexivity. Qed.

(** C2 (the code departs from it): a seed that fails hex parsing aborts the
    operation with the error notification and creates no paint style and no
    variable, but the variable collection 'UI Colors' has been created
    before the seed is parsed and stays in the document. *)
Theorem invalid_seed_leaves_a_collection :
  hexToRgb "not-a-color" = None
  /\ onmessage (GeneratePalette "brand" "not-a-color") empty_document
     = mkFigma [mkCollection "UI Colors" [0%nat]] [] []
         [mkNotification "Invalid hex code provided." true] false.
Proof. split; reflexivity. Qed.

(** C3: for every validly parsed seed with HSL (H, S, L) and matched weight
    w0, the colour registered at each of the 11 weights w, as a paint style
    and as a variable, is
    hslToRgb(H, clamp01(TS[w] * S + (S - TS[w0] * S)),
                clamp01(TL[w] + (L - TL[w0]))),
    both clamped arguments lie in [0, 1], and the hue argument is the
    seed's H at every weight. *)
Theorem ramp_follows_synthesis_formula (name hex : string) (fg : Figma)
  (c : RGB) (H S L : float) :
  hexToRgb hex = Some c -> seed_hsl c = (H, S, L) ->
  let w0 := baseWeight L in
  let id := List.length (collections fg) in
  let out := onmessage (GeneratePalette name hex) fg in
  paintStyles out
  = (paintStyles fg
     ++ map (fun w =>
               mkPaintStyle ("UI Colors/" ++ name ++ "/" ++ weight_label w)
                 [paint_color (ramp_color H S L w0 w)])
          ALL_WEIGHTS)%list
  /\ variables out
     = (variables fg
        ++ map (fun w =>
                  mkVariable (name ++ "/" ++ weight_label w) id
                    [(id, paint_color (ramp_color H S L w0 w))])
             ALL_WEIGHTS)%list
  /\ forall w,
       in_unit_interval
         (clamp01 (TARGET_SATURATION w * S + (S - TARGET_SATURATION w0 * S)))
       = true
       /\ in_unit_interval
            (clamp01 (TARGET_LIGHTNESS w + (L - TARGET_LIGHTNESS w0)))
          = true.
Proof.
  intros Hparse Hhsl w0 id out.
  destruct (onmessage_valid_seed name hex fg c H S L Hparse Hhsl)
    as (_ & Hstyles & Hvars & _).
  split; [exact Hstyles |]. split; [exact Hvars |].
  intros w.
  pose proof (for_all_seeds clamped_in_range clamped_in_range_everywhere
                hex c H S L Hparse Hhsl) as Hrange.
  unfold clamped_in_range in Hrange. rewrite forallb_forall in Hrange.
  specialize (Hrange w (all_weights_listed w)).
  apply andb_prop in Hrange. exact Hrange.
Qed.

Lemma ramp_follows_synthesis_formula_blue :
  paintStyles (onmessage (GeneratePalette "blue" "#3B82F6") empty_document)
  = map (fun w =>
           mkPaintStyle ("UI Colors/blue/" ++ weight_label w)
             [paint_color
                (ramp_color 0.60338680926916222 0.91219512195121977
                   0.59803921568627449 W400 w)])
      ALL_WEIGHTS.
Proof.
  exact (proj1 (ramp_follows_synthesis_formula "blue" "#3B82F6"
                  empty_document (mkRGB 59 130 246)
                  0.60338680926916222 0.91219512195121977
                  0.59803921568627449 eq_refl eq_refl)).
Defined.

(** ** Achromatic seeds *)

Lemma rgbToHsl_gray (z : Z) :
  (0 <= z <= 255)%Z ->
  rgbToHsl (Number z) (Number z) (Number z) = (0, 0, seed_lightness z z).
Proof.
  intros Hz. unfold rgbToHsl, Math_max, Math_min. cbv zeta.
  fold (unit_channel z).
  rewrite !Math_max2_channels, !Math_min2_channels by lia.
  rewrite !Z.max_id, !Z.min_id.
  rewrite (unit_channel_eqb z z Hz Hz), Z.eqb_refl. reflexivity.
Qed.

Lemma gray_saturation (w0 w : ColorWeight) :
  saturationDelta 0 w0 = 0
  /\ TARGET_SATURATION w * 0 + saturationDelta 0 w0 = 0
  /\ clampedS 0 (saturationDelta 0 w0) w = 0.
Proof. destruct w0, w; repeat split; reflexivity. Qed.

(** C9: a validly parsed seed with equal RGB channels has H = 0 and S = 0;
    its saturation delta is 0, the computed saturation is 0 at every
    weight, and every one of the 11 colours is the gray
    r = g = b = round(clampedLightness * 255). *)
Theorem achromatic_seed_gives_gray_ramp (name hex : string) (fg : Figma)
  (c : RGB) :
  hexToRgb hex = Some c -> red c = green c -> green c = blue c ->
  exists L,
    seed_hsl c = (0, 0, L)
    /\ let w0 := baseWeight L in
       saturationDelta 0 w0 = 0
       /\ (forall w,
             TARGET_SATURATION w * 0 + saturationDelta 0 w0 = 0
             /\ clampedS 0 (saturationDelta 0 w0) w = 0
             /\ newRgbArray 0 0 (lightnessDelta L w0)
                  (saturationDelta 0 w0) w
                = gray_of (clampedL (lightnessDelta L w0) w))
       /\ paintStyles (onmessage (GeneratePalette name hex) fg)
          = (paintStyles fg
             ++ map (fun w =>
                       mkPaintStyle
                         ("UI Colors/" ++ name ++ "/" ++ weight_label w)
                         [paint_color
                            (gray_of (clampedL (lightnessDelta L w0) w))])
                  ALL_WEIGHTS)%list.
Proof.
  intros Hparse Hrg Hgb.
  destruct (HexFacts.hexToRgb_channels hex c Hparse) as (Hr & _ & _).
  exists (seed_lightness (red c) (red c)).
  assert (seed_hsl c = (0, 0, seed_lightness (red c) (red c))) as Hhsl.
  { unfold seed_hsl. rewrite <- Hgb, <- Hrg. now apply rgbToHsl_gray. }
  split; [exact Hhsl |]. cbv zeta.
  set (L := seed_lightness (red c) (red c)) in *.
  assert (forall w,
             newRgbArray 0 0 (lightnessDelta L (baseWeight L))
               (saturationDelta 0 (baseWeight L)) w
             = gray_of (clampedL (lightnessDelta L (baseWeight L)) w))
    as Hgray.
  { intros w. unfold newRgbArray.
    rewrite (proj2 (proj2 (gray_saturation (baseWeight L) w))).
    reflexivity. }
  split; [apply (gray_saturation (baseWeight L) W50) |].
  split.
  - intros w. destruct (gray_saturation (baseWeight L) w) as (_ & E1 & E2).
    split; [exact E1 | split; [exact E2 | apply Hgray]].
  - destruct (onmessage_valid_seed name hex fg c 0 0 L Hparse Hhsl)
      as (_ & Hstyles & _).
    rewrite Hstyles. f_equal. apply map_ext. intros w.
    unfold style_for. now rewrite Hgray.
Qed.

Lemma achromatic_seed_gives_gray_ramp_808080 :
  exists L,
    seed_hsl (mkRGB 128 128 128) = (0, 0, L)
    /\ saturationDelta 0 (baseWeight L) = 0.
Proof.
  destruct (achromatic_seed_gives_gray_ramp "gray" "#808080" empty_document
              (mkRGB 128 128 128) eq_refl eq_refl eq_refl)
    as (L & Hhsl & Hsd & _).
  exists L. split; [exact Hhsl | exact Hsd].
Defined.

(** ** The nearest-weight match *)

Lemma first_nearest_b_sound (L : float) (w0 : ColorWeight) :
  first_nearest_b L w0 = true -> first_nearest L w0.
Proof.
  unfold first_nearest_b. rewrite forallb_forall. intros Hall.
  split; intros w; specialize (Hall w (all_weights_listed w));
    apply andb_prop in Hall; destruct Hall as [Hle Hlt]; [exact Hle |].
  intros Hbefore. apply Nat.ltb_lt in Hbefore. now rewrite Hbefore in Hlt.
Qed.

Lemma closest_weight_first_nearest_everywhere :
  seeds_satisfy (fun _ L => first_nearest_b L (baseWeight L)) = true.
Proof. vm_compute. reflexivity. Qed.

(** C4: for every validly parsed seed with lightness L the matched base
    weight minimises |L - TARGET_LIGHTNESS[w]| and is the first such weight
    in table order; a weight whose difference is not strictly smaller than
    the running minimum never replaces the current one; and seed #3B82F6
    matches weight 400, which is closer than weight 500. *)
Theorem closest_weight_is_first_nearest :
  (forall hex c H S L,
     hexToRgb hex = Some c -> seed_hsl c = (H, S, L) ->
     first_nearest L (baseWeight L))
  /\ (forall L baseWeight minLightnessDiff weight,
        (lightness_diff L weight <? minLightnessDiff) = false ->
        scan_step L (baseWeight, minLightnessDiff) weight
        = (baseWeight, minLightnessDiff))
  /\ exists H S L,
       hexToRgb "#3B82F6" = Some (mkRGB 59 130 246)
       /\ seed_hsl (mkRGB 59 130 246) = (H, S, L)
       /\ baseWeight L = W400
       /\ (lightness_diff L W400 <? lightness_diff L W500) = true.
Proof.
  split; [| split].
  - intros hex c H S L Hparse Hhsl. apply first_nearest_b_sound.
    exact (for_all_seeds
             (fun _ L => first_nearest_b L (baseWeight L))
             closest_weight_first_nearest_everywhere hex c H S L Hparse Hhsl).
  - intros L baseWeight minLightnessDiff weight Hnot.
    unfold scan_step. fold (lightness_diff L weight). now rewrite Hnot.
  - exists 0.60338680926916222, 0.91219512195121977, 0.59803921568627449.
    repeat split; reflexivity.
Qed.

Lemma closest_weight_is_first_nearest_blue :
  first_nearest 0.59803921568627449 (baseWeight 0.59803921568627449).
Proof.
  exact (proj1 closest_weight_is_first_nearest "#3B82F6" (mkRGB 59 130 246)
           0.60338680926916222 0.91219512195121977 0.59803921568627449
           eq_refl eq_refl).
Defined.


(** ** Identity at the matched weight *)



(** ** Monotonic lightness *)

Lemma ordered_pairs_b_sound (R : float -> float -> bool) (l : list float) :
  ordered_pairs_b R l = true -> ForallOrdPairs (fun x y => R x y = true) l.
Proof.
  induction l as [| x t IH]; cbn [ordered_pairs_b]; intros H.
  - constructor.
  - apply andb_prop in H. destruct H as [Hx Ht].
    constructor; [| now apply IH].
    apply Forall_forall. now rewrite forallb_forall in Hx.
Qed.

Lemma output_lightness_ordered_everywhere :
  seeds_satisfy
    (fun _ L => ordered_pairs_b (fun x y => y <=? x) (output_lightness L))
  = true.
Proof. vm_compute. reflexivity. Qed.

(** C7: for every validly parsed seed the clamped output lightness values
    of the 11 weights, in table order, are non-increasing; the target
    lightness curve itself is strictly decreasing from 0.97 to 0.06. *)
Theorem output_lightness_non_increasing :
  (forall hex c H S L,
     hexToRgb hex = Some c -> seed_hsl c = (H, S, L) ->
     non_increasing (output_lightness L))
  /\ strictly_decreasing (map TARGET_LIGHTNESS ALL_WEIGHTS)
  /\ TARGET_LIGHTNESS W50 = 0.97 /\ TARGET_LIGHTNESS W950 = 0.06.
Proof.
  split; [| split; [| split; reflexivity]].
  - intros hex c H S L Hparse Hhsl.
    apply (ordered_pairs_b_sound (fun x y => y <=? x)).
    exact (for_all_seeds
             (fun _ L =>
                ordered_pairs_b (fun x y => y <=? x) (output_lightness L))
             output_lightness_ordered_everywhere hex c H S L Hparse Hhsl).
  - apply (ordered_pairs_b_sound (fun x y => y <? x)).
    vm_compute. reflexivity.
Qed.

Lemma output_lightness_non_increasing_blue :
  non_increasing (output_lightness 0.59803921568627449).
Proof.
  exact (proj1 output_lightness_non_increasing "#3B82F6" (mkRGB 59 130 246)
           0.60338680926916222 0.91219512195121977 0.59803921568627449
           eq_refl eq_refl).
Defined.

(** ** The HSL round trip *)

Lemma all_from_sound (P : float -> bool) (n : nat) :
  forall x,
    all_from n x P = true ->
    forall k, (k < n)%nat -> P (Nat.iter k (fun y => y + 1) x) = true.
Proof.
  induction n as [| n IH]; intros x Hall k Hk; [lia |].
  cbn [all_from] in Hall. destruct (P x) eqn:Hx; [| discriminate].
  destruct k as [| k]; [exact Hx |].
  rewrite Nat.iter_succ_r. apply IH; [exact Hall | lia].
Qed.

(** Counting up from 0 reaches the Number of every channel value. *)
Lemma Number_by_counting (z : Z) :
  (0 <= z <= 255)%Z ->
  Nat.iter (Z.to_nat z) (fun y => y + 1) 0 = Number z.
Proof.
  intros Hz.
  assert (forallb
            (fun z => Leibniz.eqb (Nat.iter (Z.to_nat z) (fun y => y + 1) 0)
                        (Number z))
            channel_values = true) as Hall by (vm_compute; reflexivity).
  apply Leibniz.eqb_spec.
  exact (for_all_channels _ Hall z Hz).
Qed.

Lemma round_trip_exact_sound (r g b : float) :
  round_trip_exact r g b = true ->
  (let '(h, s, l) := rgbToHsl r g b in hslToRgb h s l) = (r, g, b).
Proof.
  unfold round_trip_exact.
  destruct (rgbToHsl r g b) as [[h s] l].
  destruct (hslToRgb h s l) as [[r' g'] b']. intros Hrt.
  apply andb_prop in Hrt. destruct Hrt as [Hrt Eb].
  apply andb_prop in Hrt. destruct Hrt as [Er Eg].
  apply Leibniz.eqb_spec in Er, Eg, Eb. now subst.
Qed.

(** *** Colours with two equal channels *)

Lemma tied_pairs_everywhere :
  forallb (fun a => forallb (tied_pair_ok a) channel_values) channel_values
  = true.
Proof. vm_compute. reflexivity. Qed.

Lemma hsl_round_trip_tied (a b : Z) :
  (0 <= a <= 255)%Z -> (0 <= b <= 255)%Z ->
  round_trip_exact (Number a) (Number a) (Number b) = true
  /\ round_trip_exact (Number a) (Number b) (Number a) = true
  /\ round_trip_exact (Number b) (Number a) (Number a) = true.
Proof.
  intros Ha Hb.
  pose proof (for_all_channel_pairs _ tied_pairs_everywhere a b Ha Hb) as H.
  unfold tied_pair_ok in H. cbv zeta in H.
  apply andb_prop in H. destruct H as [H H3].
  apply andb_prop in H. destruct H as [H1 H2]. auto.
Qed.

(** *** Colours with three distinct channels *)

Lemma strict_pairs_everywhere :
  forallb (fun hi => forallb (strict_pair_ok hi) channel_values)
    channel_values
  = true.
Proof. vm_compute. reflexivity. Qed.

Lemma in_top_sound (p q t : float) : in_top t = true -> hue2rgb p q t = q.
Proof.
  unfold in_top, hue2rgb. cbv zeta.
  destruct (t <? 0); destruct (1 <? _); destruct (_ <? 1 / 6);
    try discriminate; intros ->; reflexivity.
Qed.

Lemma in_bottom_sound (p q t : float) :
  in_bottom t = true -> hue2rgb p q t = p.
Proof.
  unfold in_bottom, hue2rgb. cbv zeta.
  destruct (t <? 0); destruct (1 <? _); destruct (_ <? 1 / 6);
    try discriminate; destruct (_ <? 1 / 2); try discriminate;
    destruct (_ <? 2 / 3); try discriminate; reflexivity.
Qed.

Lemma rounds_to_sound (c p q t : float) :
  rounds_to c p q t = true -> Math_round (hue2rgb p q t * 255) = c.
Proof. unfold rounds_to. apply Leibniz.eqb_spec. Qed.

(** Counting up from the Number after [lo]. *)
Lemma Number_counting_from (lo : Z) (k : nat) :
  (0 <= lo)%Z -> (lo + 1 + Z.of_nat k <= 255)%Z ->
  Nat.iter k (fun y => y + 1) (Number lo + 1)
  = Number (lo + 1 + Z.of_nat k).
Proof.
  intros Hlo Hk.
  rewrite <- (Number_by_counting lo),
    <- (Number_by_counting (lo + 1 + Z.of_nat k)) by lia.
  replace (Z.to_nat (lo + 1 + Z.of_nat k))
    with (k + S (Z.to_nat lo))%nat by lia.
  rewrite Nat.iter_add. reflexivity.
Qed.

(** What the evaluation of a pair says of one colour between its
    extremes. *)
Lemma strict_triple_facts (hi mid lo : Z) :
  (0 <= lo)%Z -> (lo < mid)%Z -> (mid < hi)%Z -> (hi <= 255)%Z ->
  let s := chroma_s hi lo in
  let l := seed_lightness hi lo in
  let q := hsl_q s l in
  let p := hsl_p l q in
  (s =? 0) = false
  /\ Math_round (q * 255) = Number hi
  /\ Math_round (p * 255) = Number lo
  /\ strict_triple_ok (unit_channel lo) (unit_channel hi - unit_channel lo)
       p q (Number mid)
     = true.
Proof.
  intros Hlo Hlm Hmh Hhi.
  pose proof (for_all_channel_pairs _ strict_pairs_everywhere hi lo
                ltac:(lia) ltac:(lia)) as Hpair.
  unfold strict_pair_ok in Hpair.
  destruct (Z.leb_spec hi lo) as [Hle | _]; [lia |].
  cbv zeta in Hpair |- *.
  destruct (chroma_s hi lo =? 0); [discriminate |].
  apply andb_prop in Hpair. destruct Hpair as [Hpair Hmids].
  apply andb_prop in Hpair. destruct Hpair as [Hq Hp].
  apply Leibniz.eqb_spec in Hq, Hp.
  split; [reflexivity |]. split; [exact Hq |]. split; [exact Hp |].
  pose proof (all_from_sound _ _ _ Hmids (Z.to_nat (mid - lo - 1))
                ltac:(lia)) as Hmid.
  rewrite Number_counting_from in Hmid by lia.
  replace (lo + 1 + Z.of_nat (Z.to_nat (mid - lo - 1)))%Z with mid in Hmid
    by lia.
  exact Hmid.
Qed.

Lemma hslToRgb_chromatic (h s l : float) :
  (s =? 0) = false ->
  hslToRgb h s l
  = (Math_round
       (hue2rgb (hsl_p l (hsl_q s l)) (hsl_q s l) (h + 1 / 3) * 255),
     Math_round (hue2rgb (hsl_p l (hsl_q s l)) (hsl_q s l) h * 255),
     Math_round
       (hue2rgb (hsl_p l (hsl_q s l)) (hsl_q s l) (h - 1 / 3) * 255)).
Proof. intros Hs. unfold hslToRgb. rewrite Hs. reflexivity. Qed.

Lemma rgbToHsl_chromatic (r g b hi lo : Z) :
  (0 <= r <= 255)%Z -> (0 <= g <= 255)%Z -> (0 <= b <= 255)%Z ->
  Z.max (Z.max r g) b = hi -> Z.min (Z.min r g) b = lo -> hi <> lo ->
  rgbToHsl (Number r) (Number g) (Number b)
  = (hue_of (unit_channel hi) (unit_channel hi - unit_channel lo)
       (unit_channel r) (unit_channel g) (unit_channel b),
     chroma_s hi lo, seed_lightness hi lo).
Proof.
  intros Hr Hg Hb Hhi Hlo Hne.
  unfold rgbToHsl, Math_max, Math_min. cbv zeta.
  fold (unit_channel r). fold (unit_channel g). fold (unit_channel b).
  rewrite (Math_max2_channels r g), (Math_min2_channels r g) by assumption.
  rewrite Math_max2_channels, Math_min2_channels by lia.
  rewrite Hhi, Hlo.
  rewrite (unit_channel_eqb hi lo) by lia.
  rewrite (proj2 (Z.eqb_neq hi lo) Hne). reflexivity.
Qed.

(** Use the tests that were evaluated for one order of the channels. *)
Ltac use_tests :=
  repeat match goal with
    | T : in_top ?t = true |- context [hue2rgb ?p ?q ?t] =>
        rewrite (in_top_sound p q t T)
    | T : in_bottom ?t = true |- context [hue2rgb ?p ?q ?t] =>
        rewrite (in_bottom_sound p q t T)
    | T : rounds_to ?c ?p ?q ?t = true |- context [hue2rgb ?p ?q ?t] =>
        rewrite (rounds_to_sound c p q t T)
    end.

(** The round trip of [(r, g, b)] whose channels, in decreasing order, are
    [hi > mid > lo]. *)
Ltac strict_order r g b hi mid lo :=
  let F := fresh "F" in
  let Fs := fresh "Fs" in
  let Fq := fresh "Fq" in
  let Fp := fresh "Fp" in
  let Ft := fresh "Ft" in
  pose proof (strict_triple_facts hi mid lo
                ltac:(lia) ltac:(lia) ltac:(lia) ltac:(lia)) as F;
  cbv zeta in F; destruct F as (Fs & Fq & Fp & Ft);
  rewrite (rgbToHsl_chromatic r g b hi lo) by lia;
  rewrite (hslToRgb_chromatic _ _ _ Fs);
  unfold hue_of; settle_channel_tests unit_channel_eqb unit_channel_ltb;
  unfold strict_triple_ok in Ft; cbv zeta in Ft; split_tests Ft;
  unfold unit_channel in *;
  use_tests; rewrite ?Fq, ?Fp; reflexivity.

Lemma hsl_round_trip_strict (r g b : Z) :
  (0 <= r <= 255)%Z -> (0 <= g <= 255)%Z -> (0 <= b <= 255)%Z ->
  r <> g -> g <> b -> r <> b ->
  (let '(h, s, l) := rgbToHsl (Number r) (Number g) (Number b) in
   hslToRgb h s l)
  = (Number r, Number g, Number b).
Proof.
  intros Hr Hg Hb Hrg Hgb Hrb.
  destruct (Z.lt_ge_cases r g), (Z.lt_ge_cases g b), (Z.lt_ge_cases r b);
    try lia.
  - (* r < g < b *) strict_order r g b b g r.
  - (* r < b < g *) strict_order r g b g b r.
  - (* b < r < g *) strict_order r g b g r b.
  - (* g < r < b *) strict_order r g b b r g.
  - (* g < b < r *) strict_order r g b r b g.
  - (* b < g < r *) strict_order r g b r g b.
Qed.

(** *** Every colour *)

Lemma hsl_round_trip_exact (r g b : Z) :
  (0 <= r <= 255)%Z -> (0 <= g <= 255)%Z -> (0 <= b <= 255)%Z ->
  (let '(h, s, l) := rgbToHsl (Number r) (Number g) (Number b) in
   hslToRgb h s l)
  = (Number r, Number g, Number b).
Proof.
  intros Hr Hg Hb.
  destruct (Z.eq_dec r g) as [<- | Hrg].
  { apply round_trip_exact_sound, (hsl_round_trip_tied r b Hr Hb). }
  destruct (Z.eq_dec g b) as [<- | Hgb].
  { apply round_trip_exact_sound, (hsl_round_trip_tied g r Hg Hr). }
  destruct (Z.eq_dec r b) as [<- | Hrb].
  { apply round_trip_exact_sound, (hsl_round_trip_tied r g Hr Hg). }
  now apply hsl_round_trip_strict.
Qed.

(** C8: for every colour with integer 8-bit channels, converting to HSL
    and back gives integer channels that differ from the original ones by
    at most 1 each. *)
Theorem hsl_round_trip_within_one (r g b : Z) :
  (0 <= r <= 255)%Z -> (0 <= g <= 255)%Z -> (0 <= b <= 255)%Z ->
  exists r' g' b' : Z,
    (let '(h, s, l) := rgbToHsl (Number r) (Number g) (Number b) in
     hslToRgb h s l)
    = (Number r', Number g', Number b')
    /\ (Z.abs (r' - r) <= 1)%Z /\ (Z.abs (g' - g) <= 1)%Z
    /\ (Z.abs (b' - b) <= 1)%Z.
Proof.
  intros Hr Hg Hb. exists r, g, b.
  split; [now apply hsl_round_trip_exact | lia].
Qed.

Lemma hsl_round_trip_within_one_blue :
  exists r' g' b' : Z,
    hslToRgb 0.60338680926916222 0.91219512195121977 0.59803921568627449
    = (Number r', Number g', Number b')
    /\ (Z.abs (r' - 59) <= 1)%Z /\ (Z.abs (g' - 130) <= 1)%Z
    /\ (Z.abs (b' - 246) <= 1)%Z.
Proof.
  exact (hsl_round_trip_within_one 59 130 246
           ltac:(lia) ltac:(lia) ltac:(lia)).
Defined.

End ColorFacts.

(* ================================================================== *)
(** * The layout generator: presets, palettes and cards *)
(* ================================================================== *)

Module BentoPluginFacts.

Import Bento JSString BentoPlugin BentoNotions.

Local Open Scope Z_scope.

Lemma PresetKey_eq_dec (k k' : PresetKey) : {k = k'} + {k <> k'}.
Proof. decide equality. Defined.

Lemma filter_none {A} (f : A -> bool) (l : list A) :
  (forall a, In a l -> f a = false) -> filter f l = [].
Proof.
  induction l as [| a l IH]; intros H; cbn; [reflexivity |].
  rewrite (H a (or_introl eq_refl)). apply IH.
  intros b Hb. apply H. now right.
Qed.

Lemma length_filter_map {A B} (f : A -> B) (p : B -> bool) (l : list A) :
  List.length (filter p (map f l))
  = List.length (filter (fun i => p (f i)) l).
Proof.
  induction l as [| a l IH]; cbn; [reflexivity |].
  destruct (p (f a)); cbn; now rewrite IH.
Qed.

Lemma grid_cell_in_bounds (r c : Z) (p : Preset) (cell : CellSpan) :
  0 <= r -> 0 <= c -> Bento.grid r c = Some p -> In cell (cells p) ->
  cell_in_bounds p cell.
Proof.
  intros Hr Hc Hp Hin.
  destruct (BentoFacts.grid_elements r c p Hp) as [_ ->].
  cbn [cells] in Hin.
  apply in_map_iff in Hin. destruct Hin as [i [<- Hi]].
  apply in_seq in Hi. unfold cell_in_bounds.
  cbn [rowSpan colSpan row col Bento.rows Bento.cols].
  assert (0 <= Z.of_nat i < r * c) as Hb by lia.
  assert (0 < c) as Hc' by nia.
  rewrite Z.rem_mod_nonneg by lia.
  pose proof (Z.mod_pos_bound (Z.of_nat i) c Hc').
  pose proof (Z.div_pos (Z.of_nat i) c ltac:(lia) Hc').
  assert (Z.of_nat i / c < r) by (apply Z.div_lt_upper_bound; nia).
  lia.
Qed.

Lemma covers_in_bounds (p : Preset) (cell : CellSpan) (y x : Z) :
  cell_in_bounds p cell -> covers y x cell = true ->
  0 <= y < Bento.rows p /\ 0 <= x < Bento.cols p.
Proof.
  unfold cell_in_bounds, covers. intros Hb Hcov.
  repeat (apply andb_prop in Hcov; destruct Hcov as [Hcov ?]).
  lia.
Qed.

Lemma cover_count_outside (p : Preset) (y x : Z) :
  (forall cell, In cell (cells p) -> cell_in_bounds p cell) ->
  ~ (0 <= y < Bento.rows p /\ 0 <= x < Bento.cols p) ->
  cover_count p y x = 0%nat.
Proof.
  intros Hb Hout. unfold cover_count. rewrite filter_none; [reflexivity |].
  intros cell Hcell. apply not_true_is_false. intros Hcov.
  apply Hout. exact (covers_in_bounds p cell y x (Hb cell Hcell) Hcov).
Qed.

Lemma grid_cover_count (r c y x : Z) (p : Preset) :
  0 <= r -> 0 <= c -> Bento.grid r c = Some p ->
  cover_count p y x
  = if (0 <=? y) && (y <? r) && (0 <=? x) && (x <? c) then 1%nat else 0%nat.
Proof.
  intros Hr Hc Hp.
  destruct ((0 <=? y) && (y <? r) && (0 <=? x) && (x <? c)) eqn:Hin.
  - repeat (apply andb_prop in Hin; destruct Hin as [Hin ?]).
    assert (0 <= y < r /\ 0 <= x < c) as [Hy Hx] by lia.
    destruct (BentoFacts.grid_elements r c p Hp) as [_ ->].
    unfold cover_count. cbn [cells].
    rewrite length_filter_map.
    rewrite (BentoFacts.filter_seq_single _ (Z.to_nat (y * c + x))).
    + destruct (Nat.leb_spec 0 (Z.to_nat (y * c + x))); [| lia].
      destruct (Nat.ltb_spec (Z.to_nat (y * c + x)) (0 + Z.to_nat (r * c)));
        [reflexivity | nia].
    + intros i _. rewrite BentoFacts.covers_grid_cell by lia.
      destruct (Z.eqb_spec (Z.of_nat i) (y * c + x)) as [E | E],
        (Nat.eqb_spec i (Z.to_nat (y * c + x))) as [E' | E'];
        try reflexivity; exfalso; nia.
  - apply cover_count_outside.
    + intros cell Hcell. exact (grid_cell_in_bounds r c p cell Hr Hc Hp Hcell).
    + destruct (BentoFacts.grid_elements r c p Hp) as [_ ->].
      cbn [Bento.rows Bento.cols]. intros [Hy Hx].
      assert ((0 <=? y) && (y <? r) && (0 <=? x) && (x <? c) = true) as Hin'.
      { repeat (apply andb_true_intro; split); lia. }
      congruence.
Qed.

(** The presets other than the grid are returned for all arguments. *)
Lemma fixed_preset_defined (key : PresetKey) (r c : Z) :
  key <> grid -> exists p, PRESETS key r c = Some p.
Proof.
  intros Hkey. destruct key; [contradiction | ..]; eexists; reflexivity.
Qed.

Lemma fixed_cells_in_bounds (key : PresetKey) (r c : Z) (p : Preset)
  (cell : CellSpan) :
  key <> grid -> PRESETS key r c = Some p -> In cell (cells p) ->
  cell_in_bounds p cell.
Proof.
  intros Hkey Hp Hin. destruct key; [contradiction | ..];
    cbn [PRESETS] in Hp; injection Hp as <-; cbn [cells In] in Hin;
    repeat (destruct Hin as [<- | Hin]; [unfold cell_in_bounds; cbn; lia |]);
    destruct Hin.
Qed.

(** The positions of a grid of 3 rows and at most 4 columns, one by one. *)
Ltac each_position y x :=
  let Hy := fresh in
  let Hx := fresh in
  assert (y = 0 \/ y = 1 \/ y = 2) as Hy by lia;
  assert (x = 0 \/ x = 1 \/ x = 2 \/ x = 3) as Hx by lia;
  destruct Hy as [-> | [-> | ->]]; destruct Hx as [-> | [-> | [-> | ->]]];
  try lia.

Lemma fixed_cover_count (key : PresetKey) (r c y x : Z) (p : Preset) :
  key <> grid -> PRESETS key r c = Some p ->
  0 <= y < Bento.rows p -> 0 <= x < Bento.cols p ->
  cover_count p y x
  = match key with
    | masonry6 => if (y =? 2) && (x =? 2) then 0%nat else 1%nat
    | _ => 1%nat
    end.
Proof.
  intros Hkey Hp Hy Hx.
  destruct key; [contradiction | ..]; cbn [PRESETS] in Hp;
    injection Hp as <-; cbn [Bento.rows Bento.cols] in *;
    each_position y x; reflexivity.
Qed.

(** X1: for rows and columns that are not negative, every cell of every
    preset starts at a non-negative row and column, spans at least one row
    and one column and ends within the preset's rows and columns, and no
    unit position is covered by two cells. *)
Theorem preset_cells_in_bounds_and_disjoint (key : PresetKey) (r c : Z)
  (p : Preset) :
  0 <= r -> 0 <= c -> PRESETS key r c = Some p ->
  (forall cell, In cell (cells p) -> cell_in_bounds p cell)
  /\ (forall y x, (cover_count p y x <= 1)%nat).
Proof.
  intros Hr Hc Hp.
  assert (forall cell, In cell (cells p) -> cell_in_bounds p cell) as Hb.
  { intros cell Hin. destruct (PresetKey_eq_dec key grid) as [-> | Hkey].
    - exact (grid_cell_in_bounds r c p cell Hr Hc Hp Hin).
    - exact (fixed_cells_in_bounds key r c p cell Hkey Hp Hin). }
  split; [exact Hb |]. intros y x.
  destruct (PresetKey_eq_dec key grid) as [-> | Hkey].
  - cbn [PRESETS] in Hp. rewrite (grid_cover_count r c y x p Hr Hc Hp).
    destruct ((0 <=? y) && (y <? r) && (0 <=? x) && (x <? c)); lia.
  - destruct (Z_le_dec 0 y), (Z_lt_dec y (Bento.rows p)), (Z_le_dec 0 x),
      (Z_lt_dec x (Bento.cols p));
      try (rewrite (cover_count_outside p y x Hb) by lia; lia).
    rewrite (fixed_cover_count key r c y x p Hkey Hp) by lia.
    destruct key; try lia. destruct ((y =? 2) && (x =? 2)); lia.
Qed.

Lemma preset_cells_in_bounds_and_disjoint_golden :
  cell_in_bounds (Bento.mkPreset 3 3
                    [mkCell 0 0 2 2; mkCell 0 2 1 1; mkCell 1 2 1 1;
                     mkCell 2 0 1 1; mkCell 2 1 1 1; mkCell 2 2 1 1])
    (mkCell 0 0 2 2).
Proof.
  pose proof (preset_cells_in_bounds_and_disjoint golden 5 7 _
                ltac:(lia) ltac:(lia) eq_refl) as [Hb _].
  apply Hb. cbn. tauto.
Defined.

(** X2: the presets other than [grid] ignore their arguments: they have 3
    rows, 3 ([golden]) or 4 columns, and 6 cells.  In [golden], [heroRight]
    and [heroLeft] every position is covered by exactly one cell;
    [masonry6] leaves the position in row 2 and column 2 uncovered and
    covers every other position once. *)
Theorem fixed_presets_cover (key : PresetKey) (r c y x : Z) :
  key <> grid ->
  exists p,
    PRESETS key r c = Some p
    /\ Bento.rows p = 3
    /\ Bento.cols p = (match key with golden => 3 | _ => 4 end)
    /\ List.length (cells p) = 6%nat
    /\ (0 <= y < Bento.rows p -> 0 <= x < Bento.cols p ->
        cover_count p y x
        = match key with
          | masonry6 => if (y =? 2) && (x =? 2) then 0%nat else 1%nat
          | _ => 1%nat
          end).
Proof.
  intros Hkey. destruct (fixed_preset_defined key r c Hkey) as [p Hp].
  exists p. split; [exact Hp |].
  split; [| split; [| split]].
  - destruct key; [contradiction | ..]; cbn [PRESETS] in Hp;
      injection Hp as <-; reflexivity.
  - destruct key; [contradiction | ..]; cbn [PRESETS] in Hp;
      injection Hp as <-; reflexivity.
  - destruct key; [contradiction | ..]; cbn [PRESETS] in Hp;
      injection Hp as <-; reflexivity.
  - intros Hy Hx. exact (fixed_cover_count key r c y x p Hkey Hp Hy Hx).
Qed.

Lemma fixed_presets_cover_masonry6 :
  exists p,
    PRESETS masonry6 3 4 = Some p /\ cover_count p 2 2 = 0%nat.
Proof.
  destruct (fixed_presets_cover masonry6 3 4 2 2 ltac:(discriminate))
    as (p & Hp & Hrows & Hcols & _ & Hcount).
  exists p. split; [exact Hp |].
  apply Hcount; [rewrite Hrows | rewrite Hcols]; lia.
Defined.

(** ** The generated scene *)

Lemma cards_from_nth (p : GeneratePayload) (unitW unitH : float)
  (cs : list CellSpan) :
  forall (i : Z) (k : nat),
    nth_error (cards_from p unitW unitH i cs) k
    = option_map (card p unitW unitH (i + Z.of_nat k)) (nth_error cs k).
Proof.
  induction cs as [| c cs IH]; intros i k.
  - destruct k; reflexivity.
  - destruct k as [| k]; cbn [cards_from nth_error option_map].
    + now rewrite Z.add_0_r.
    + rewrite IH. do 2 f_equal. lia.
Qed.

Lemma cards_from_length (p : GeneratePayload) (unitW unitH : float)
  (cs : list CellSpan) :
  forall i, List.length (cards_from p unitW unitH i cs) = List.length cs.
Proof.
  induction cs as [| c cs IH]; intros i; cbn; [reflexivity | now rewrite IH].
Qed.

Lemma skipn_all_app {A} (l l' : list A) :
  skipn (List.length l) (l ++ l') = l'.
Proof. induction l as [| a l IH]; [reflexivity | exact IH]. Qed.

(** When the preset is returned, the new cards are the cards of the loop
    over its cells, with the unit width and height of the payload. *)
Lemma new_cards_are_cards_from (p : GeneratePayload) (figma : Host)
  (pr : Preset) :
  PRESETS (preset p) (rows p) (cols p) = Some pr ->
  new_cards p figma
  = cards_from p (unit_width p pr) (unit_height p pr) 0 (cells pr).
Proof.
  intros Hp. unfold new_cards, generateBento. rewrite Hp.
  cbn [currentPage]. rewrite skipn_all_app. cbn [flat_map frame_children].
  now rewrite app_nil_r.
Qed.

(** When the call of the preset throws, nothing is generated. *)
Lemma generateBento_throws (p : GeneratePayload) (figma : Host) :
  PRESETS (preset p) (rows p) (cols p) = None ->
  generateBento p figma = None /\ new_cards p figma = [].
Proof.
  intros Hp. unfold new_cards, generateBento. rewrite Hp. split; reflexivity.
Qed.

Lemma new_cards_nth (p : GeneratePayload) (figma : Host) (k : nat)
  (cd : CardNode) :
  nth_error (new_cards p figma) k = Some cd ->
  exists unitW unitH cell, cd = card p unitW unitH (Z.of_nat k) cell.
Proof.
  destruct (PRESETS (preset p) (rows p) (cols p)) as [pr |] eqn:Hp.
  - rewrite (new_cards_are_cards_from p figma pr Hp).
    rewrite cards_from_nth. cbn [Z.add].
    destruct (nth_error _ k) as [cell |]; [| discriminate].
    intros [= <-]. now exists (unit_width p pr), (unit_height p pr), cell.
  - rewrite (proj2 (generateBento_throws p figma Hp)).
    destruct k; discriminate.
Qed.

(** The only call of a preset that throws. *)
Lemma preset_throws (key : PresetKey) (r c : Z) :
  PRESETS key r c = None <-> key = grid /\ 2 ^ 32 <= r * c.
Proof.
  split.
  - intros Hnone. destruct (PresetKey_eq_dec key grid) as [-> | Hkey].
    + split; [reflexivity |].
      destruct (Z_lt_le_dec (r * c) (2 ^ 32)) as [Hn | Hn]; [| exact Hn].
      destruct (BentoFacts.grid_defined r c Hn) as [p Hp].
      cbn [PRESETS] in Hnone. congruence.
    + destruct (fixed_preset_defined key r c Hkey) as [p Hp]. congruence.
  - intros [-> Hn]. cbn [PRESETS].
    destruct (Bento.grid r c) as [p |] eqn:Hp; [| reflexivity].
    apply BentoFacts.grid_elements in Hp. lia.
Qed.

(** X5: when the preset is returned, a [generate] message adds one frame
    named Bento to the page, selects it and closes the plugin; the frame
    holds as many cards as the preset has cells, and the card of index
    [k] is named Card [k + 1].  When the call of the preset throws, which
    only the grid does and only for rows times columns above 2^32 - 1,
    the message changes nothing: no frame is added and the plugin is not
    closed. *)
Theorem generate_builds_one_card_per_cell (p : GeneratePayload)
  (figma : Host) :
  let out := onmessage (Generate p) figma in
  match PRESETS (preset p) (rows p) (cols p) with
  | Some pr =>
      (exists frame,
         currentPage out = (currentPage figma ++ [frame])%list
         /\ frame_name frame = "Bento"
         /\ frame_children frame = new_cards p figma)
      /\ selection out = [List.length (currentPage figma)]
      /\ closed out = true
      /\ List.length (new_cards p figma) = List.length (cells pr)
      /\ (forall k cd,
            nth_error (new_cards p figma) k = Some cd ->
            card_name cd = "Card " ++ toString10 (Z.of_nat k + 1))
  | None => out = figma /\ new_cards p figma = []
  end
  /\ (PRESETS (preset p) (rows p) (cols p) = None
      <-> preset p = grid /\ 2 ^ 32 <= rows p * cols p).
Proof.
  intros out. split; [| apply preset_throws].
  destruct (PRESETS (preset p) (rows p) (cols p)) as [pr |] eqn:Hp.
  - pose proof (new_cards_are_cards_from p figma pr Hp) as Hcards.
    subst out. unfold onmessage. unfold generateBento at 1 2 3.
    unfold new_cards at 1. unfold generateBento at 1. rewrite Hp.
    cbn [closePlugin currentPage selection closed].
    split; [| split; [| split; [| split]]].
    + eexists. split; [reflexivity |]. split; [reflexivity |].
      cbn [frame_children].
      rewrite skipn_all_app. cbn [flat_map frame_children].
      now rewrite app_nil_r.
    + reflexivity.
    + reflexivity.
    + rewrite Hcards. apply cards_from_length.
    + intros k cd Hk.
      destruct (new_cards_nth p figma k cd Hk) as (unitW & unitH & cell & ->).
      reflexivity.
  - destruct (generateBento_throws p figma Hp) as [Hgen Hnone].
    subst out. unfold onmessage. rewrite Hgen. split; [reflexivity | exact Hnone].
Qed.

(** X20: the card of index [k] is laid out from the cell of index [k],
    with one unit width and one unit height for all cards:
    unitW = (width - padding * 2 - gap * (cols - 1)) / cols and unitH
    likewise from the height and the rows; the card sits at
    x = padding + col * (unitW + gap) and y = padding + row * (unitH + gap)
    and has width colSpan * unitW + (colSpan - 1) * gap and height
    rowSpan * unitH + (rowSpan - 1) * gap. *)
Theorem cards_are_laid_out_from_cells (p : GeneratePayload) (figma : Host)
  (pr : Preset) (k : nat) (cell : CellSpan) :
  PRESETS (preset p) (rows p) (cols p) = Some pr ->
  nth_error (cells pr) k = Some cell ->
  let unitW :=
    ((width p - padding p * 2 - gap p * (Number (Bento.cols pr) - 1))
     / Number (Bento.cols pr))%float in
  let unitH :=
    ((height p - padding p * 2 - gap p * (Number (Bento.rows pr) - 1))
     / Number (Bento.rows pr))%float in
  exists cd,
    nth_error (new_cards p figma) k = Some cd
    /\ card_x cd = (padding p + Number (col cell) * (unitW + gap p))%float
    /\ card_y cd = (padding p + Number (row cell) * (unitH + gap p))%float
    /\ card_width cd
       = (Number (colSpan cell) * unitW
          + (Number (colSpan cell) - 1) * gap p)%float
    /\ card_height cd
       = (Number (rowSpan cell) * unitH
          + (Number (rowSpan cell) - 1) * gap p)%float.
Proof.
  intros Hp Hcell unitW unitH.
  rewrite (new_cards_are_cards_from p figma pr Hp), cards_from_nth, Hcell.
  cbn [option_map]. eexists. split; [reflexivity |].
  repeat split.
Qed.

(** Every palette holds five colours with channels in [0, 1]. *)
Lemma palettes_are_valid (key : PaletteKey) :
  List.length (PALETTES key) = 5%nat
  /\ forallb valid_color (PALETTES key) = true.
Proof. destruct key; split; vm_compute; reflexivity. Qed.

(** X7: the card of index [k] is filled with one solid paint whose colour
    is the entry [k mod 5] of the chosen palette: the colour is never
    undefined, its channels lie in [0, 1], and the colours repeat every
    five cards. *)
Theorem card_fills_cycle_through_palette (p : GeneratePayload)
  (figma : Host) (k : nat) (cd : CardNode) :
  nth_error (new_cards p figma) k = Some cd ->
  exists color,
    card_fills cd = [SOLID (Some color)]
    /\ nth_error (PALETTES (palette p)) (k mod 5) = Some color
    /\ valid_color color = true.
Proof.
  intros Hk.
  destruct (new_cards_nth p figma k cd Hk) as (unitW & unitH & cell & ->).
  destruct (palettes_are_valid (palette p)) as [Hlen Hvalid].
  cbn [card card_fills]. rewrite Hlen. unfold paint, element.
  change (Z.of_nat 5) with 5.
  pose proof (Z.mod_pos_bound (Z.of_nat k) 5 ltac:(lia)) as Hm.
  destruct (Z.ltb_spec (Z.of_nat k mod 5) 0) as [Hneg | _]; [lia |].
  assert (Z.to_nat (Z.of_nat k mod 5) = (k mod 5)%nat) as ->.
  { change 5 with (Z.of_nat 5). rewrite <- Nat2Z.inj_mod. apply Nat2Z.id. }
  destruct (nth_error (PALETTES (palette p)) (k mod 5)) as [color |] eqn:E.
  - exists color. split; [reflexivity |]. split; [reflexivity |].
    rewrite forallb_forall in Hvalid. apply Hvalid.
    now apply nth_error_In in E.
  - apply nth_error_None in E. rewrite Hlen in E.
    pose proof (Nat.mod_upper_bound k 5 ltac:(lia)). lia.
Qed.

(** X8: with the label style [none] a card has no child; with [numbers]
    its label reads the decimal form of [k + 1]; with [letters] it is the
    single code unit [(65 + k) mod 65536], which is a capital letter
    exactly for the first 26 cards of each 65536. *)
Theorem card_labels (p : GeneratePayload) (figma : Host) (k : nat)
  (cd : CardNode) :
  nth_error (new_cards p figma) k = Some cd ->
  map characters (card_children cd)
  = match labelStyle p with
    | none => []
    | numbers => [code_units (toString10 (Z.of_nat k + 1))]
    | letters => [[(65 + Z.of_nat k) mod 65536]]
    end
  /\ (is_capital ((65 + Z.of_nat k) mod 65536) = true
      <-> Z.of_nat k mod 65536 < 26).
Proof.
  intros Hk.
  destruct (new_cards_nth p figma k cd Hk) as (unitW & unitH & cell & ->).
  split.
  - cbn [card card_children]. unfold label.
    destruct (labelStyle p); reflexivity.
  - unfold is_capital.
    rewrite <- (Zplus_mod_idemp_r (Z.of_nat k) 65).
    pose proof (Z.mod_pos_bound (Z.of_nat k) 65536 ltac:(lia)) as Hm.
    set (j := Z.of_nat k mod 65536) in *.
    destruct (Z_lt_le_dec (65 + j) 65536) as [Hsmall | Hbig].
    + rewrite Z.mod_small by lia. split.
      * intros H. apply andb_prop in H. lia.
      * intros H. apply andb_true_intro. split; lia.
    + assert ((65 + j) mod 65536 = 65 + j - 65536) as ->.
      { symmetry. apply Z.mod_unique_pos with (q := 1); lia. }
      split.
      * intros H. apply andb_prop in H. lia.
      * intros H. lia.
Qed.


(** X6: a grid whose rows times columns is not positive has no cell;
    the generator then still adds its frame to the page, without any
    card. *)
Theorem empty_grid_gives_empty_frame (p : GeneratePayload) (figma : Host) :
  preset p = grid -> rows p * cols p <= 0 ->
  exists pr out,
    PRESETS (preset p) (rows p) (cols p) = Some pr
    /\ cells pr = []
    /\ generateBento p figma = Some out
    /\ new_cards p figma = []
    /\ List.length (currentPage out) = S (List.length (currentPage figma)).
Proof.
  intros Hgrid Hrc.
  destruct (BentoFacts.grid_defined (rows p) (cols p) ltac:(lia)) as [pr Hgr].
  assert (PRESETS (preset p) (rows p) (cols p) = Some pr) as Hp
    by (rewrite Hgrid; exact Hgr).
  assert (cells pr = []) as Hcells.
  { destruct (BentoFacts.grid_elements _ _ _ Hgr) as [_ ->]. cbn [cells].
    replace (Z.to_nat (rows p * cols p)) with 0%nat by lia. reflexivity. }
  exists pr. unfold generateBento. rewrite Hp. eexists.
  split; [reflexivity |]. split; [exact Hcells |].
  split; [reflexivity |]. split.
  - rewrite (new_cards_are_cards_from p figma pr Hp). now rewrite Hcells.
  - cbn [currentPage]. rewrite length_app. cbn [List.length]. lia.
Qed.

(** ** The palette helper [hex] *)

Local Open Scope float_scope.

Lemma all_ascii_complete (c : ascii) : In c all_ascii.
Proof.
  unfold all_ascii. apply in_map_iff. exists (nat_of_ascii c).
  split; [apply ascii_nat_embedding |].
  apply in_seq. pose proof (nat_ascii_bounded c). lia.
Qed.

Lemma hex_pairs_parse :
  forallb (fun a => forallb (hex_pair_parses a) all_ascii) all_ascii = true.
Proof. vm_compute. reflexivity. Qed.

Lemma parseInt_hex_pair (a b : ascii) :
  is_hex_digit a = true -> is_hex_digit b = true ->
  parseInt (String a (String b "")) 16
  = match parseInt16 [a; b] with Some v => Number v | None => nan end.
Proof.
  intros Ha Hb.
  pose proof hex_pairs_parse as H. rewrite forallb_forall in H.
  specialize (H a (all_ascii_complete a)). rewrite forallb_forall in H.
  specialize (H b (all_ascii_complete b)).
  unfold hex_pair_parses in H. rewrite Ha, Hb in H. cbn [andb] in H.
  destruct (parseInt16 [a; b]); [| discriminate].
  now apply Leibniz.eqb_spec.
Qed.

Lemma unit_channels_valid :
  forallb (fun z => in_unit_interval (Number z / 255)) channel_values = true.
Proof. vm_compute. reflexivity. Qed.

(** X3: on [#] followed by six hexadecimal digits, [hex] gives the
    channels that [hexToRgb] reads, each divided by 255, and all three lie
    in [0, 1]. *)
Theorem hex_agrees_with_hexToRgb (d1 d2 d3 d4 d5 d6 : ascii) :
  forallb is_hex_digit [d1; d2; d3; d4; d5; d6] = true ->
  let h := String "#" (string_of_list_ascii [d1; d2; d3; d4; d5; d6]) in
  exists c,
    hexToRgb h = Some c
    /\ hex h
       = mkColor (Number (red c) / 255) (Number (green c) / 255)
           (Number (blue c) / 255)
    /\ valid_color (hex h) = true.
Proof.
  intros Hhex h.
  destruct (HexFacts.channels_of_hex _ _ _ _ _ _ Hhex)
    as (v1 & v2 & v3 & v4 & v5 & v6 & Hch & B & _).
  exists (mkRGB (16 * v1 + v2) (16 * v3 + v4) (16 * v5 + v6)).
  assert (hexToRgb h
          = Some (mkRGB (16 * v1 + v2) (16 * v3 + v4) (16 * v5 + v6)))
    as Hparse.
  { subst h. rewrite HexFacts.hexToRgb_by_shape.
    cbn [string_of_list_ascii strip_hash].
    change (Ascii.eqb "#" "#") with true. cbv iota.
    cbn [list_ascii_of_string]. now rewrite Hhex. }
  assert (hex h
          = mkColor (Number (16 * v1 + v2) / 255) (Number (16 * v3 + v4) / 255)
              (Number (16 * v5 + v6) / 255)) as Hh.
  { subst h. unfold hex, slice.
    cbn [string_of_list_ascii substring Nat.sub].
    cbn [forallb] in Hhex.
    repeat (apply andb_prop in Hhex;
            let H' := fresh "Hd" in destruct Hhex as [H' Hhex]).
    rewrite !parseInt_hex_pair by assumption.
    unfold channels_of in Hch.
    destruct (parseInt16 [d1; d2]) as [r |]; [| discriminate].
    destruct (parseInt16 [d3; d4]) as [g |]; [| discriminate].
    destruct (parseInt16 [d5; d6]) as [b |]; [| discriminate].
    now injection Hch as -> -> ->. }
  split; [exact Hparse |]. cbn [red green blue].
  split; [exact Hh |]. rewrite Hh. unfold valid_color. cbn [cr cg cb].
  rewrite !(ColorFacts.for_all_channels _ unit_channels_valid) by lia.
  reflexivity.
Qed.

Lemma hex_agrees_with_hexToRgb_sunset :
  hex "#FF7A59" = mkColor (255 / 255) (122 / 255) (89 / 255).
Proof.
  destruct (hex_agrees_with_hexToRgb "F" "F" "7" "A" "5" "9" eq_refl)
    as (c & Hc & Hh & _).
  injection Hc as <-. exact Hh.
Defined.

Lemma substring_beyond (n m : nat) (s : string) :
  (String.length s <= n)%nat -> substring n m s = "".
Proof.
  revert n. induction s as [| c s IH]; intros n Hn.
  - destruct n, m; reflexivity.
  - destruct n as [| n]; [cbn in Hn; lia |].
    cbn [substring]. apply IH. cbn in Hn. lia.
Qed.

(** X4: [hex] does not validate its argument: the first character is
    never looked at, and a string of at most five characters (a
    three-digit shorthand, for one) gets the blue channel NaN, so the
    result is not a valid colour. *)
Theorem hex_does_not_validate :
  (forall c c' s, hex (String c s) = hex (String c' s))
  /\ (forall h, (String.length h <= 5)%nat -> cb (hex h) = nan)
  /\ (forall h,
        (String.length h <= 5)%nat ->
        valid_color (hex h) = false).
Proof.
  split; [| split].
  - intros c c' s. reflexivity.
  - intros h Hlen. unfold hex, slice. cbn [cb].
    now rewrite (substring_beyond 5 _ h Hlen).
  - intros h Hlen. unfold valid_color, hex, slice. cbn [cr cg cb].
    rewrite (substring_beyond 5 _ h Hlen).
    change (parseInt "" 16 / 255) with nan.
    change (in_unit_interval nan) with false.
    now rewrite andb_false_r.
Qed.

Lemma hex_does_not_validate_shorthand :
  cb (hex "#abc") = nan.
Proof.
  exact (proj1 (proj2 hex_does_not_validate) "#abc" ltac:(cbn; lia)).
Defined.

Lemma generate_builds_one_card_per_cell_golden :
  List.length (new_cards golden_payload empty_page) = 6%nat
  /\ closed (onmessage (Generate golden_payload) empty_page) = true
  /\ onmessage (Generate huge_grid_payload) empty_page = empty_page.
Proof.
  pose proof (generate_builds_one_card_per_cell golden_payload empty_page)
    as [(_ & _ & Hclosed & Hlen & _) _].
  pose proof (generate_builds_one_card_per_cell huge_grid_payload empty_page)
    as [[Hsame _] _].
  split; [exact Hlen |]. split; [exact Hclosed | exact Hsame].
Defined.

Lemma cards_are_laid_out_from_cells_golden :
  exists cd,
    nth_error (new_cards golden_payload empty_page) 2 = Some cd
    /\ card_x cd = (24 + 2 * ((1200 - 24 * 2 - 16 * (3 - 1)) / 3 + 16))%float
    /\ card_y cd = (24 + 1 * ((800 - 24 * 2 - 16 * (3 - 1)) / 3 + 16))%float.
Proof.
  destruct (cards_are_laid_out_from_cells golden_payload empty_page _ 2
              (mkCell 1 2 1 1) eq_refl eq_refl) as (cd & Hcd & Hx & Hy & _).
  exists cd. split; [exact Hcd |]. split; [exact Hx | exact Hy].
Defined.

Lemma card_fills_cycle_through_palette_sixth :
  exists cd color,
    nth_error (new_cards golden_payload empty_page) 5 = Some cd
    /\ card_fills cd = [SOLID (Some color)]
    /\ nth_error (PALETTES sunset) 0 = Some color.
Proof.
  destruct (card_fills_cycle_through_palette golden_payload empty_page 5 _
              eq_refl) as (color & Hfill & Hcolor & _).
  eexists. exists color.
  split; [reflexivity |]. split; [exact Hfill | exact Hcolor].
Defined.

Lemma card_labels_sixth :
  exists cd,
    nth_error (new_cards golden_payload empty_page) 5 = Some cd
    /\ map characters (card_children cd) = [[70%Z]].
Proof.
  eexists. split; [reflexivity |].
  exact (proj1 (card_labels golden_payload empty_page 5 _ eq_refl)).
Defined.

Lemma empty_grid_gives_empty_frame_0x4 :
  new_cards empty_grid_payload empty_page = [].
Proof.
  destruct (empty_grid_gives_empty_frame empty_grid_payload empty_page
              eq_refl ltac:(cbn; lia)) as (pr & out & _ & _ & _ & Hnone & _).
  exact Hnone.
Defined.

End BentoPluginFacts.

(* ================================================================== *)
(** * More on the hex strings *)
(* ================================================================== *)

Module HexMoreFacts.

Import HexNotions HexFacts.

Local Open Scope Z_scope.

(** ** Letter case and the leading [#] *)

Lemma case_of_hex_digit (c : ascii) :
  is_hex_digit (canonicalize c) = is_hex_digit c
  /\ hex_digit_value (canonicalize c) = hex_digit_value c
  /\ Ascii.eqb (canonicalize c) "#" = Ascii.eqb c "#"
  /\ is_hex_digit (to_lower c) = is_hex_digit c
  /\ hex_digit_value (to_lower c) = hex_digit_value c
  /\ Ascii.eqb (to_lower c) "#" = Ascii.eqb c "#".
Proof. each_ascii c; repeat split; reflexivity. Qed.

Section LetterCase.

Variable f : ascii -> ascii.
Hypothesis f_hex : forall c, is_hex_digit (f c) = is_hex_digit c.
Hypothesis f_value : forall c, hex_digit_value (f c) = hex_digit_value c.
Hypothesis f_hash : forall c, Ascii.eqb (f c) "#" = Ascii.eqb c "#".

Lemma strip_hash_map_string (s : string) :
  list_ascii_of_string (strip_hash (map_string f s))
  = map f (list_ascii_of_string (strip_hash s)).
Proof.
  assert (forall t, list_ascii_of_string (map_string f t)
                    = map f (list_ascii_of_string t)) as Hmap.
  { induction t as [| c t IH]; cbn; [reflexivity | now rewrite IH]. }
  destruct s as [| c s]; [reflexivity |].
  cbn [map_string strip_hash]. rewrite f_hash.
  destruct (Ascii.eqb c "#"); [apply Hmap | apply (Hmap (String c s))].
Qed.

Lemma channels_of_map (d : list ascii) :
  channels_of (map f d) = channels_of d.
Proof.
  destruct d as [| c1 [| c2 [| c3 [| c4 [| c5 [| c6 [| c7 d]]]]]]];
    try reflexivity.
  cbn [map]. unfold channels_of, parseInt16. cbn [parseInt16_from].
  now rewrite !f_value.
Qed.

Lemma hexToRgb_map_string (s : string) :
  hexToRgb (map_string f s) = hexToRgb s.
Proof.
  rewrite !hexToRgb_by_shape, strip_hash_map_string.
  destruct (list_ascii_of_string (strip_hash s))
    as [| c1 [| c2 [| c3 [| c4 [| c5 [| c6 [| c7 d]]]]]]];
    try reflexivity; cbn [map forallb]; rewrite !f_hex.
  - change [f c1; f c1; f c2; f c2; f c3; f c3]
      with (map f [c1; c1; c2; c2; c3; c3]).
    now rewrite channels_of_map.
  - change [f c1; f c2; f c3; f c4; f c5; f c6]
      with (map f [c1; c2; c3; c4; c5; c6]).
    now rewrite channels_of_map.
Qed.

End LetterCase.

(** X9: [hexToRgb] gives the same result for a string and for its upper-
    and lower-case forms; a leading [#] before a string that does not
    start with one changes nothing; and a string that starts with two [#]
    is rejected. *)
Theorem hexToRgb_ignores_case_and_hash :
  (forall s, hexToRgb (map_string canonicalize s) = hexToRgb s)
  /\ (forall s, hexToRgb (map_string to_lower s) = hexToRgb s)
  /\ (forall s, strip_hash s = s -> hexToRgb (String "#" s) = hexToRgb s)
  /\ (forall s, hexToRgb (String "#" (String "#" s)) = None).
Proof.
  split; [| split; [| split]].
  - intros s. apply hexToRgb_map_string; intros c; apply case_of_hex_digit.
  - intros s. apply hexToRgb_map_string; intros c; apply case_of_hex_digit.
  - intros s Hs. rewrite !hexToRgb_by_shape. cbn [strip_hash].
    change (Ascii.eqb "#" "#") with true. cbv iota. now rewrite Hs.
  - intros s. rewrite hexToRgb_by_shape. cbn [strip_hash].
    change (Ascii.eqb "#" "#") with true. cbv iota.
    cbn [list_ascii_of_string].
    destruct (list_ascii_of_string s)
      as [| c2 [| c3 [| c4 [| c5 [| c6 [| c7 d]]]]]]; reflexivity.
Qed.

Lemma hexToRgb_ignores_case_and_hash_abc :
  hexToRgb "#abc" = hexToRgb "abc".
Proof.
  exact (proj1 (proj2 (proj2 hexToRgb_ignores_case_and_hash)) "abc" eq_refl).
Defined.

(** ** The channel values *)

Lemma hex_digit_value_is_hex (c : ascii) (v : Z) :
  hex_digit_value c = Some v -> is_hex_digit c = true /\ 0 <= v < 16.
Proof.
  each_ascii c; cbv; intros E; try discriminate E;
    injection E as <-; repeat split; congruence.
Qed.

(** X10: every colour that [hexToRgb] returns has its three channels in
    0..255; six digits are read in pairs, a channel being 16 times the
    first digit plus the second, and a shorthand digit [d] gives the
    channel [17 * d]. *)
Theorem hexToRgb_channel_values :
  (forall s c, hexToRgb s = Some c ->
     0 <= red c <= 255 /\ 0 <= green c <= 255 /\ 0 <= blue c <= 255)
  /\ (forall d1 d2 d3 d4 d5 d6 v1 v2 v3 v4 v5 v6,
        map hex_digit_value [d1; d2; d3; d4; d5; d6]
        = map Some [v1; v2; v3; v4; v5; v6] ->
        forall s,
          strip_hash s = string_of_list_ascii [d1; d2; d3; d4; d5; d6] ->
          hexToRgb s
          = Some (mkRGB (16 * v1 + v2) (16 * v3 + v4) (16 * v5 + v6)))
  /\ (forall d1 d2 d3 v1 v2 v3,
        map hex_digit_value [d1; d2; d3] = map Some [v1; v2; v3] ->
        forall s,
          strip_hash s = string_of_list_ascii [d1; d2; d3] ->
          hexToRgb s = Some (mkRGB (17 * v1) (17 * v2) (17 * v3))).
Proof.
  split; [exact hexToRgb_channels | split].
  - intros d1 d2 d3 d4 d5 d6 v1 v2 v3 v4 v5 v6 E s Hs.
    cbn [map] in E. injection E as E1 E2 E3 E4 E5 E6.
    rewrite hexToRgb_by_shape, Hs.
    cbn [string_of_list_ascii list_ascii_of_string forallb].
    rewrite (proj1 (hex_digit_value_is_hex _ _ E1)),
      (proj1 (hex_digit_value_is_hex _ _ E2)),
      (proj1 (hex_digit_value_is_hex _ _ E3)),
      (proj1 (hex_digit_value_is_hex _ _ E4)),
      (proj1 (hex_digit_value_is_hex _ _ E5)),
      (proj1 (hex_digit_value_is_hex _ _ E6)).
    cbn [andb]. unfold channels_of.
    now rewrite (parseInt16_pair _ _ _ _ E1 E2),
      (parseInt16_pair _ _ _ _ E3 E4), (parseInt16_pair _ _ _ _ E5 E6).
  - intros d1 d2 d3 v1 v2 v3 E s Hs.
    cbn [map] in E. injection E as E1 E2 E3.
    rewrite hexToRgb_by_shape, Hs.
    cbn [string_of_list_ascii list_ascii_of_string forallb].
    rewrite (proj1 (hex_digit_value_is_hex _ _ E1)),
      (proj1 (hex_digit_value_is_hex _ _ E2)),
      (proj1 (hex_digit_value_is_hex _ _ E3)).
    cbn [andb]. unfold channels_of.
    rewrite (parseInt16_pair _ _ _ _ E1 E1),
      (parseInt16_pair _ _ _ _ E2 E2), (parseInt16_pair _ _ _ _ E3 E3).
    do 2 f_equal; lia.
Qed.

Lemma hexToRgb_channel_values_f80 :
  hexToRgb "#f80" = Some (mkRGB 255 136 0).
Proof.
  exact (proj2 (proj2 hexToRgb_channel_values) "f"%char "8"%char "0"%char
           15 8 0 eq_refl "#f80" eq_refl).
Defined.

(** ** Channels out of range *)

Lemma hexToRgb_of_nibbles (v1 v2 v3 v4 v5 v6 : Z) :
  0 <= v1 < 16 -> 0 <= v2 < 16 -> 0 <= v3 < 16 ->
  0 <= v4 < 16 -> 0 <= v5 < 16 -> 0 <= v6 < 16 ->
  hexToRgb
    (String "#" (string_of_list_ascii (map hex_digit [v1; v2; v3; v4; v5; v6])))
  = Some (mkRGB (16 * v1 + v2) (16 * v3 + v4) (16 * v5 + v6)).
Proof.
  intros B1 B2 B3 B4 B5 B6.
  rewrite hexToRgb_by_shape. cbn [map string_of_list_ascii strip_hash].
  change (Ascii.eqb "#" "#") with true.
  cbn [list_ascii_of_string forallb].
  destruct (hex_digit_is_hex _ B1) as [-> V1].
  destruct (hex_digit_is_hex _ B2) as [-> V2].
  destruct (hex_digit_is_hex _ B3) as [-> V3].
  destruct (hex_digit_is_hex _ B4) as [-> V4].
  destruct (hex_digit_is_hex _ B5) as [-> V5].
  destruct (hex_digit_is_hex _ B6) as [-> V6].
  cbn [andb]. unfold channels_of.
  now rewrite (parseInt16_pair _ _ _ _ V1 V2), (parseInt16_pair _ _ _ _ V3 V4),
    (parseInt16_pair _ _ _ _ V5 V6).
Qed.

(** Printing a value of seven digits and dropping the first. *)
Lemma slice1_toString16_seven (d v1 v2 v3 v4 v5 v6 : Z) :
  1 <= d < 16 ->
  0 <= v1 < 16 -> 0 <= v2 < 16 -> 0 <= v3 < 16 ->
  0 <= v4 < 16 -> 0 <= v5 < 16 -> 0 <= v6 < 16 ->
  slice1
    (toString16
       (16 * (16 * (16 * (16 * (16 * (16 * d + v1) + v2) + v3) + v4) + v5)
        + v6))
  = string_of_list_ascii (map hex_digit [v1; v2; v3; v4; v5; v6]).
Proof.
  intros Bd B1 B2 B3 B4 B5 B6.
  set (n := 16 * (16 * (16 * (16 * (16 * (16 * d + v1) + v2) + v3) + v4)
                  + v5) + v6).
  assert (2 ^ 24 <= n) as Hlow by (subst n; lia).
  assert (24 <= Z.log2 n) as Hlog by (apply Z.log2_le_pow2; lia).
  unfold toString16.
  destruct (Z.ltb_spec n 0) as [Hneg | _]; [lia |].
  replace (Z.to_nat (Z.log2 n)) with (6 + (Z.to_nat (Z.log2 n) - 6))%nat
    by lia.
  cbn [Nat.add]. subst n.
  rewrite !hex_digits_step by lia.
  rewrite hex_digits_last by lia.
  reflexivity.
Qed.

(** The seven hexadecimal digits of [2^24 + v]. *)
Lemma packed_digits (v : Z) :
  0 <= v < 15 * 2 ^ 24 ->
  exists d v1 v2 v3 v4 v5 v6,
    (1 <= d < 16 /\ 0 <= v1 < 16 /\ 0 <= v2 < 16 /\ 0 <= v3 < 16
     /\ 0 <= v4 < 16 /\ 0 <= v5 < 16 /\ 0 <= v6 < 16)
    /\ 2 ^ 24 + v
       = 16 * (16 * (16 * (16 * (16 * (16 * d + v1) + v2) + v3) + v4) + v5)
         + v6
    /\ unpack v = mkRGB (16 * v1 + v2) (16 * v3 + v4) (16 * v5 + v6).
Proof.
  intros Hv.
  exists (1 + v / 16777216), (v / 1048576 mod 16), (v / 65536 mod 16),
    (v / 4096 mod 16), (v / 256 mod 16), (v / 16 mod 16), (v mod 16).
  unfold unpack. change (2 ^ 24) with 16777216 in *.
  split; [| split; [| f_equal]]; Z.div_mod_to_equations; lia.
Qed.

(** X11: [rgbToHex] does not clamp: for non-negative channels whose packed
    value [v = r * 65536 + g * 256 + b] is below [15 * 2^24], the result is
    that of the three 8-bit channels of [v mod 2^24]: an excess of blue or
    green carries into the next channel and an excess of red is dropped.
    The result still has 7 characters and [hexToRgb] reads those channels
    back. *)
Theorem rgbToHex_wraps_out_of_range_channels (r g b : Z) :
  0 <= r -> 0 <= g -> 0 <= b ->
  let v := r * 65536 + g * 256 + b in
  v < 15 * 2 ^ 24 ->
  rgbToHex r g b
  = rgbToHex (red (unpack v)) (green (unpack v)) (blue (unpack v))
  /\ String.length (rgbToHex r g b) = 7%nat
  /\ hexToRgb (rgbToHex r g b) = Some (unpack v).
Proof.
  intros Hr Hg Hb v Hv.
  destruct (packed_digits v ltac:(lia))
    as (d & v1 & v2 & v3 & v4 & v5 & v6 & B & Hn & Hunpack).
  assert (rgbToHex r g b
          = String "#"
              (string_of_list_ascii (map hex_digit [v1; v2; v3; v4; v5; v6])))
    as Hhex.
  { unfold rgbToHex.
    rewrite (shl_small 1 24), (shl_small r 16), (shl_small g 8) by lia.
    replace (1 * 2 ^ 24 + r * 2 ^ 16 + g * 2 ^ 8 + b) with (2 ^ 24 + v)
      by (subst v; lia).
    rewrite Hn, slice1_toString16_seven by tauto. reflexivity. }
  rewrite Hunpack. cbn [red green blue].
  rewrite rgbToHex_nibbles by tauto.
  split; [exact Hhex |]. rewrite Hhex.
  split; [reflexivity |]. apply hexToRgb_of_nibbles; tauto.
Qed.

Lemma rgbToHex_wraps_out_of_range_channels_256 :
  rgbToHex 0 0 256 = rgbToHex 0 1 0
  /\ hexToRgb (rgbToHex 256 255 256) = Some (mkRGB 1 0 0).
Proof.
  split.
  - exact (proj1 (rgbToHex_wraps_out_of_range_channels 0 0 256
                    ltac:(lia) ltac:(lia) ltac:(lia) ltac:(cbv; reflexivity))).
  - exact (proj2 (proj2 (rgbToHex_wraps_out_of_range_channels 256 255 256
                    ltac:(lia) ltac:(lia) ltac:(lia) ltac:(cbv; reflexivity)))).
Defined.

End HexMoreFacts.

(* ================================================================== *)
(** * The palette of a seed in the document *)
(* ================================================================== *)

Module PaletteFacts.

Import PaletteNotions ColorFacts.

Local Open Scope float_scope.

Lemma matched_weight_exact_everywhere :
  seeds_satisfy matched_weight_exact = true.
Proof. vm_compute. reflexivity. Qed.

(** X15: converting a colour with 8-bit channels to HSL and back with
    [hslToRgb] gives exactly the three channels it started from. *)
Theorem rgb_hsl_rgb_is_identity (r g b : Z) :
  (0 <= r <= 255)%Z -> (0 <= g <= 255)%Z -> (0 <= b <= 255)%Z ->
  forall h s l,
    rgbToHsl (Number r) (Number g) (Number b) = (h, s, l) ->
    hslToRgb h s l = (Number r, Number g, Number b).
Proof.
  intros Hr Hg Hb h s l E.
  pose proof (hsl_round_trip_exact r g b Hr Hg Hb) as Hrt.
  now rewrite E in Hrt.
Qed.

Lemma rgb_hsl_rgb_is_identity_blue :
  hslToRgb 0.60338680926916222 0.91219512195121977 0.59803921568627449
  = (59, 130, 246).
Proof.
  exact (rgb_hsl_rgb_is_identity 59 130 246 ltac:(lia) ltac:(lia) ltac:(lia)
           _ _ _ eq_refl).
Defined.

(** The colour that comes back from the HSL form of a parsed seed. *)
Lemma seed_hsl_round_trip (hex : string) (c : RGB) (H S L : float) :
  hexToRgb hex = Some c -> seed_hsl c = (H, S, L) ->
  hslToRgb H S L = (Number (red c), Number (green c), Number (blue c)).
Proof.
  intros Hparse Hhsl.
  destruct (HexFacts.hexToRgb_channels hex c Hparse) as (Hr & Hg & Hb).
  pose proof (hsl_round_trip_exact _ _ _ Hr Hg Hb) as Hrt.
  unfold seed_hsl in Hhsl. now rewrite Hhsl in Hrt.
Qed.

(** X16: the palette of a parsed seed contains the seed itself: at the
    matched weight the generated RGB array is the seed's three channels,
    and the paint style and the variable of that weight carry the seed's
    channels divided by 255. *)
Theorem seed_reproduced_at_matched_weight (name hex : string) (fg : Figma)
  (c : RGB) (H S L : float) :
  hexToRgb hex = Some c -> seed_hsl c = (H, S, L) ->
  let w0 := baseWeight L in
  let seed :=
    mkColor (Number (red c) / 255) (Number (green c) / 255)
      (Number (blue c) / 255) in
  let out := onmessage (GeneratePalette name hex) fg in
  newRgbArray H S (lightnessDelta L w0) (saturationDelta S w0) w0
  = (Number (red c), Number (green c), Number (blue c))
  /\ In (mkPaintStyle (style_name_of name w0) [seed]) (paintStyles out)
  /\ In (mkVariable (variable_name_of name w0)
           (List.length (collections fg))
           [(List.length (collections fg), seed)])
        (variables out).
Proof.
  intros Hparse Hhsl w0 seed out.
  pose proof (for_all_seeds _ matched_weight_exact_everywhere
                hex c H S L Hparse Hhsl) as Hexact.
  unfold matched_weight_exact in Hexact. cbv zeta in Hexact.
  apply andb_prop in Hexact. destruct Hexact as [ES EL].
  apply Leibniz.eqb_spec in ES, EL. fold w0 in ES, EL.
  assert (newRgbArray H S (lightnessDelta L w0) (saturationDelta S w0) w0
          = (Number (red c), Number (green c), Number (blue c))) as Hrgb.
  { unfold newRgbArray. cbv zeta. rewrite ES, EL.
    exact (seed_hsl_round_trip hex c H S L Hparse Hhsl). }
  destruct (onmessage_valid_seed name hex fg c H S L Hparse Hhsl)
    as (_ & Hstyles & Hvars & _).
  fold w0 in Hstyles, Hvars. fold out in Hstyles, Hvars.
  split; [exact Hrgb |]. split.
  - rewrite Hstyles. apply in_or_app. right.
    apply in_map_iff. exists w0. split; [| apply all_weights_listed].
    unfold style_for. rewrite Hrgb. reflexivity.
  - rewrite Hvars. apply in_or_app. right.
    apply in_map_iff. exists w0. split; [| apply all_weights_listed].
    unfold variable_for. rewrite Hrgb. reflexivity.
Qed.

Lemma seed_reproduced_at_matched_weight_blue :
  In (mkPaintStyle "UI Colors/blue/400"
        [mkColor (59 / 255) (130 / 255) (246 / 255)])
     (paintStyles (onmessage (GeneratePalette "blue" "#3B82F6")
                     empty_document)).
Proof.
  exact (proj1 (proj2 (seed_reproduced_at_matched_weight "blue" "#3B82F6"
                         empty_document (mkRGB 59 130 246)
                         0.60338680926916222 0.91219512195121977
                         0.59803921568627449 eq_refl eq_refl))).
Defined.

(** ** How far a seed moves the target curves *)

Lemma deviation_bounded_everywhere : seeds_satisfy deviation_bounded = true.
Proof. vm_compute. reflexivity. Qed.

(** X19: for every parsed seed the lightness delta lies in [-0.06, 0.055]
    and the saturation delta in [0, 0.2]; at every weight the new
    lightness and the new saturation are not negative, so the clamped
    values are the minimum of 1 and the new values: only the upper clamp
    ever acts. *)
Theorem deviation_from_targets_is_bounded (hex : string) (c : RGB)
  (H S L : float) :
  hexToRgb hex = Some c -> seed_hsl c = (H, S, L) ->
  let w0 := baseWeight L in
  let ld := lightnessDelta L w0 in
  let sd := saturationDelta S w0 in
  ((-0.06 <=? ld) = true /\ (ld <=? 0.055) = true)
  /\ ((0 <=? sd) = true /\ (sd <=? 0.2) = true)
  /\ forall w,
       (0 <=? TARGET_LIGHTNESS w + ld) = true
       /\ (0 <=? TARGET_SATURATION w * S + sd) = true
       /\ clampedL ld w = Math_min2 1 (TARGET_LIGHTNESS w + ld)
       /\ clampedS S sd w = Math_min2 1 (TARGET_SATURATION w * S + sd).
Proof.
  intros Hparse Hhsl w0 ld sd.
  pose proof (for_all_seeds _ deviation_bounded_everywhere
                hex c H S L Hparse Hhsl) as Hb.
  unfold deviation_bounded in Hb. cbv zeta in Hb.
  fold w0 in Hb. fold ld in Hb. fold sd in Hb.
  apply andb_prop in Hb. destruct Hb as [Hb Hall].
  apply andb_prop in Hb. destruct Hb as [Hb Hsd2].
  apply andb_prop in Hb. destruct Hb as [Hb Hsd1].
  apply andb_prop in Hb. destruct Hb as [Hld1 Hld2].
  split; [split; assumption |]. split; [split; assumption |].
  intros w. rewrite forallb_forall in Hall.
  specialize (Hall w (all_weights_listed w)).
  apply andb_prop in Hall. destruct Hall as [Hall ES].
  apply andb_prop in Hall. destruct Hall as [Hall EL].
  apply andb_prop in Hall. destruct Hall as [HL HS].
  apply Leibniz.eqb_spec in ES, EL. auto.
Qed.

Lemma deviation_from_targets_is_bounded_blue :
  (-0.06 <=? lightnessDelta 0.59803921568627449 W400) = true
  /\ (lightnessDelta 0.59803921568627449 W400 <=? 0.055) = true.
Proof.
  exact (proj1 (deviation_from_targets_is_bounded "#3B82F6"
                  (mkRGB 59 130 246) 0.60338680926916222
                  0.91219512195121977 0.59803921568627449 eq_refl eq_refl)).
Defined.

(** ** What a run adds to the document *)

Lemma append_inv_head (p a b : string) :
  (p ++ a)%string = (p ++ b)%string -> a = b.
Proof.
  induction p as [| ch p IH]; cbn; [trivial |].
  intros [= E]. now apply IH.
Qed.

Lemma weight_label_inj (w w' : ColorWeight) :
  weight_label w = weight_label w' -> w = w'.
Proof. destruct w, w'; (reflexivity || discriminate). Qed.

Lemma NoDup_map_inj {A B} (f : A -> B) (l : list A) :
  (forall x y, f x = f y -> x = y) -> NoDup l -> NoDup (map f l).
Proof.
  intros Hinj Hnd. induction Hnd as [| x l Hx Hnd IH]; cbn; constructor.
  - intros Hin. apply in_map_iff in Hin. destruct Hin as (y & E & Hy).
    apply Hinj in E. now subst.
  - exact IH.
Qed.

Lemma style_names_differ (name : string) :
  NoDup (map (style_name_of name) ALL_WEIGHTS)
  /\ NoDup (map (variable_name_of name) ALL_WEIGHTS).
Proof.
  assert (NoDup ALL_WEIGHTS) as Hnd.
  { unfold ALL_WEIGHTS.
    repeat (constructor; [cbn; intuition discriminate |]). constructor. }
  split; (apply NoDup_map_inj; [| exact Hnd]); intros w w' E;
    apply weight_label_inj.
  - unfold style_name_of in E.
    apply append_inv_head in E. now apply append_inv_head, append_inv_head in E.
  - unfold variable_name_of in E.
    now apply append_inv_head, append_inv_head in E.
Qed.

(** X17: a run on a seed that parses only appends to the document: one
    collection 'UI Colors', 11 paint styles named UI Colors/name/weight
    and 11 variables named name/weight, in the order of the weights and
    with pairwise different names, each style with one paint and each
    variable in the new collection with a value for its first mode; it
    then posts one notification that is not an error and closes the
    plugin. *)
Theorem successful_run_appends_one_ramp (name hex : string) (fg : Figma)
  (c : RGB) :
  hexToRgb hex = Some c ->
  let id := List.length (collections fg) in
  let out := onmessage (GeneratePalette name hex) fg in
  exists styles vars,
    collections out = (collections fg ++ [mkCollection "UI Colors" [id]])%list
    /\ paintStyles out = (paintStyles fg ++ styles)%list
    /\ variables out = (variables fg ++ vars)%list
    /\ notifications out
       = (notifications fg ++ [mkNotification (created_message name) false])%list
    /\ closed out = true
    /\ map style_name styles = map (style_name_of name) ALL_WEIGHTS
    /\ map variable_name vars = map (variable_name_of name) ALL_WEIGHTS
    /\ NoDup (map style_name styles)
    /\ NoDup (map variable_name vars)
    /\ (forall s, In s styles -> List.length (style_paints s) = 1%nat)
    /\ (forall v, In v vars ->
          variable_collection v = id
          /\ map fst (variable_values v) = [id]).
Proof.
  intros Hparse id out.
  destruct (seed_hsl c) as [[H S] L] eqn:Hhsl.
  destruct (onmessage_valid_seed name hex fg c H S L Hparse Hhsl)
    as (Hcols & Hstyles & Hvars & Hclosed).
  fold id in Hcols, Hvars. fold out in Hcols, Hstyles, Hvars, Hclosed.
  eexists. eexists.
  split; [exact Hcols |]. split; [exact Hstyles |]. split; [exact Hvars |].
  split.
  { subst out. unfold onmessage, createVariableCollection. rewrite Hparse.
    fold (seed_hsl c). rewrite Hhsl.
    unfold generate_styles. rewrite palette_loop_effect.
    reflexivity. }
  split; [exact Hclosed |].
  rewrite !map_map. cbn [style_for style_name variable_for variable_name].
  destruct (style_names_differ name) as [Hs Hv].
  split; [reflexivity |]. split; [reflexivity |].
  split; [exact Hs |]. split; [exact Hv |]. split.
  - intros s Hs'. apply in_map_iff in Hs'. destruct Hs' as (w & <- & _).
    reflexivity.
  - intros v Hv'. apply in_map_iff in Hv'. destruct Hv' as (w & <- & _).
    split; reflexivity.
Qed.

Lemma successful_run_appends_one_ramp_blue :
  let out := onmessage (GeneratePalette "blue" "#3B82F6") empty_document in
  List.length (paintStyles out) = 11%nat
  /\ List.length (variables out) = 11%nat.
Proof.
  destruct (successful_run_appends_one_ramp "blue" "#3B82F6" empty_document
              (mkRGB 59 130 246) eq_refl)
    as (styles & vars & _ & Hs & Hv & _ & _ & Hsn & Hvn & _).
  cbv zeta. rewrite Hs, Hv. cbn [empty_document paintStyles variables app].
  rewrite <- (length_map style_name styles), Hsn.
  rewrite <- (length_map variable_name vars), Hvn.
  split; reflexivity.
Defined.

(** ** A seed that is not a hex colour *)

Lemma hexToRgb_rejects (s : string) :
  valid_hex_string s = false -> hexToRgb s = None.
Proof.
  rewrite HexFacts.hexToRgb_by_shape. unfold valid_hex_string. cbv zeta.
  destruct (list_ascii_of_string (strip_hash s))
    as [| c1 [| c2 [| c3 [| c4 [| c5 [| c6 [| c7 body]]]]]]];
    cbn [List.length Nat.eqb orb andb]; try reflexivity.
  - intros ->. reflexivity.
  - intros ->. reflexivity.
Qed.

(** X18: for every seed that is not 3 or 6 hexadecimal digits after an
    optional [#], and every document, the run leaves the paint styles and
    the variables as they were and does not close the plugin; it appends
    the error notification, and the collection that was created before
    the seed was parsed. *)
Theorem invalid_seed_creates_no_style (name hex : string) (fg : Figma) :
  valid_hex_string hex = false ->
  let out := onmessage (GeneratePalette name hex) fg in
  paintStyles out = paintStyles fg
  /\ variables out = variables fg
  /\ closed out = closed fg
  /\ notifications out
     = (notifications fg
        ++ [mkNotification "Invalid hex code provided." true])%list
  /\ collections out
     = (collections fg
        ++ [mkCollection "UI Colors" [List.length (collections fg)]])%list.
Proof.
  intros Hbad out. subst out.
  rewrite (onmessage_invalid_seed name hex fg (hexToRgb_rejects hex Hbad)).
  repeat split.
Qed.

Lemma invalid_seed_creates_no_style_12345 :
  let out := onmessage (GeneratePalette "brand" "#12345") empty_document in
  paintStyles out = [] /\ variables out = [] /\ closed out = false.
Proof.
  destruct (invalid_seed_creates_no_style "brand" "#12345" empty_document
              eq_refl) as (Hs & Hv & Hc & _).
  cbv zeta. rewrite Hs, Hv, Hc. repeat split.
Defined.

(** ** Saturation and lightness of 8-bit colours *)

Lemma saturation_lightness_ok_everywhere :
  forallb (fun hi => forallb (saturation_lightness_ok hi) channel_values)
    channel_values
  = true.
Proof. vm_compute. reflexivity. Qed.

(** X12: for 8-bit channels, the saturation and the lightness that
    [rgbToHsl] returns lie in [0, 1]; the saturation is 0 exactly for the
    grays (and then the hue is 0), the lightness is 0 for black only and 1
    for white only. *)
Theorem rgbToHsl_saturation_and_lightness (r g b : Z) :
  (0 <= r <= 255)%Z -> (0 <= g <= 255)%Z -> (0 <= b <= 255)%Z ->
  forall h s l,
    rgbToHsl (Number r) (Number g) (Number b) = (h, s, l) ->
    in_unit_interval s = true /\ in_unit_interval l = true
    /\ ((s =? 0) = true <-> r = g /\ g = b)
    /\ (r = g /\ g = b -> h = 0)
    /\ ((l =? 0) = true <-> r = 0%Z /\ g = 0%Z /\ b = 0%Z)
    /\ ((l =? 1) = true <-> r = 255%Z /\ g = 255%Z /\ b = 255%Z).
Proof.
  intros Hr Hg Hb h s l E.
  set (hi := Z.max (Z.max r g) b). set (lo := Z.min (Z.min r g) b).
  destruct (rgbToHsl_of_extremes r g b Hr Hg Hb) as [h0 E0].
  fold hi lo in E0. rewrite E in E0. injection E0 as Eh -> ->.
  pose proof (for_all_channel_pairs _ saturation_lightness_ok_everywhere
                hi lo ltac:(lia) ltac:(lia)) as Hok.
  unfold saturation_lightness_ok in Hok.
  destruct (Z.ltb_spec hi lo) as [Hlt | _]; [lia |]. cbv zeta in Hok.
  apply andb_prop in Hok. destruct Hok as [Hok Hwhite].
  apply andb_prop in Hok. destruct Hok as [Hok Hblack].
  apply andb_prop in Hok. destruct Hok as [Hok Hgray].
  apply andb_prop in Hok. destruct Hok as [Hs Hl].
  apply Bool.eqb_prop in Hwhite, Hblack, Hgray.
  split; [exact Hs |]. split; [exact Hl |].
  split; [rewrite Hgray, Z.eqb_eq; lia |].
  split.
  { intros [<- <-]. rewrite rgbToHsl_gray in E by lia.
    now injection E as <- _ _. }
  split; [rewrite Hblack, Z.eqb_eq; lia | rewrite Hwhite, Z.eqb_eq; lia].
Qed.

Lemma rgbToHsl_saturation_and_lightness_blue :
  in_unit_interval 0.91219512195121977 = true
  /\ in_unit_interval 0.59803921568627449 = true.
Proof.
  pose proof (rgbToHsl_saturation_and_lightness 59 130 246
                ltac:(lia) ltac:(lia) ltac:(lia) _ _ _ eq_refl)
    as (Hs & Hl & _).
  split; [exact Hs | exact Hl].
Defined.

(** X13: for 8-bit channels, the saturation and the lightness that
    [rgbToHsl] returns do not change when two of the channels are
    exchanged: they depend on the largest and the smallest channel
    only. *)
Theorem rgbToHsl_saturation_lightness_symmetric (r g b : Z) :
  (0 <= r <= 255)%Z -> (0 <= g <= 255)%Z -> (0 <= b <= 255)%Z ->
  forall h s l h' s' l',
    rgbToHsl (Number r) (Number g) (Number b) = (h, s, l) ->
    rgbToHsl (Number g) (Number r) (Number b) = (h', s', l')
    \/ rgbToHsl (Number r) (Number b) (Number g) = (h', s', l')
    \/ rgbToHsl (Number b) (Number g) (Number r) = (h', s', l') ->
    s' = s /\ l' = l.
Proof.
  intros Hr Hg Hb h s l h' s' l' E E'.
  set (hi := Z.max (Z.max r g) b). set (lo := Z.min (Z.min r g) b).
  destruct (rgbToHsl_of_extremes r g b Hr Hg Hb) as [h0 E0].
  fold hi lo in E0. rewrite E in E0. injection E0 as _ -> ->.
  destruct E' as [E' | [E' | E']].
  - destruct (rgbToHsl_of_extremes g r b Hg Hr Hb) as [h1 E1].
    rewrite E' in E1. injection E1 as _ -> ->.
    replace (Z.max (Z.max g r) b) with hi by lia.
    replace (Z.min (Z.min g r) b) with lo by lia. split; reflexivity.
  - destruct (rgbToHsl_of_extremes r b g Hr Hb Hg) as [h1 E1].
    rewrite E' in E1. injection E1 as _ -> ->.
    replace (Z.max (Z.max r b) g) with hi by lia.
    replace (Z.min (Z.min r b) g) with lo by lia. split; reflexivity.
  - destruct (rgbToHsl_of_extremes b g r Hb Hg Hr) as [h1 E1].
    rewrite E' in E1. injection E1 as _ -> ->.
    replace (Z.max (Z.max b g) r) with hi by lia.
    replace (Z.min (Z.min b g) r) with lo by lia. split; reflexivity.
Qed.

Lemma rgbToHsl_saturation_lightness_symmetric_blue :
  snd (fst (rgbToHsl 130 59 246)) = snd (fst (rgbToHsl 59 130 246))
  /\ snd (rgbToHsl 130 59 246) = snd (rgbToHsl 59 130 246).
Proof.
  exact (rgbToHsl_saturation_lightness_symmetric 59 130 246
           ltac:(lia) ltac:(lia) ltac:(lia) _ _ _ _ _ _ eq_refl
           (or_introl eq_refl)).
Defined.

End PaletteFacts.

(* ================================================================== *)
(** * The range of the hue *)
(* ================================================================== *)

Module HueFacts.

Import HueNotions ColorFacts.

Local Open Scope float_scope.

Lemma tied_hues_everywhere :
  forallb (fun a => forallb (tied_hue_ok a) channel_values) channel_values
  = true.
Proof. vm_compute. reflexivity. Qed.

Lemma hue_pairs_everywhere :
  forallb (fun hi => forallb (hue_pair_ok hi) channel_values) channel_values
  = true.
Proof. vm_compute. reflexivity. Qed.

Lemma tied_hue_range (a b : Z) :
  (0 <= a <= 255)%Z -> (0 <= b <= 255)%Z ->
  in_hue_range (fst (fst (rgbToHsl (Number a) (Number a) (Number b)))) = true
  /\ in_hue_range (fst (fst (rgbToHsl (Number a) (Number b) (Number a))))
     = true
  /\ in_hue_range (fst (fst (rgbToHsl (Number b) (Number a) (Number a))))
     = true.
Proof.
  intros Ha Hb.
  pose proof (for_all_channel_pairs _ tied_hues_everywhere a b Ha Hb) as H.
  unfold tied_hue_ok in H. cbv zeta in H.
  apply andb_prop in H. destruct H as [H H3].
  apply andb_prop in H. destruct H as [H1 H2]. auto.
Qed.

Lemma hue_triple_facts (hi mid lo : Z) :
  (0 <= lo)%Z -> (lo < mid)%Z -> (mid < hi)%Z -> (hi <= 255)%Z ->
  hue_triple_ok (unit_channel lo) (unit_channel hi - unit_channel lo)
    (Number mid)
  = true.
Proof.
  intros Hlo Hlm Hmh Hhi.
  pose proof (for_all_channel_pairs _ hue_pairs_everywhere hi lo
                ltac:(lia) ltac:(lia)) as Hpair.
  unfold hue_pair_ok in Hpair.
  destruct (Z.leb_spec hi lo) as [Hle | _]; [lia |].
  cbv zeta in Hpair.
  pose proof (all_from_sound _ _ _ Hpair (Z.to_nat (mid - lo - 1))
                ltac:(lia)) as Hmid.
  rewrite Number_counting_from in Hmid by lia.
  replace (lo + 1 + Z.of_nat (Z.to_nat (mid - lo - 1)))%Z with mid in Hmid
    by lia.
  exact Hmid.
Qed.

(** The hue of [(r, g, b)] whose channels, in decreasing order, are
    [hi > mid > lo]. *)
Ltac hue_order r g b hi mid lo :=
  let F := fresh "F" in
  pose proof (hue_triple_facts hi mid lo
                ltac:(lia) ltac:(lia) ltac:(lia) ltac:(lia)) as F;
  rewrite (rgbToHsl_chromatic r g b hi lo) by lia;
  cbn [fst]; unfold hue_of;
  settle_channel_tests unit_channel_eqb unit_channel_ltb;
  unfold hue_triple_ok in F; cbv zeta in F; split_tests F;
  unfold unit_channel in *; assumption.

Lemma strict_hue_range (r g b : Z) :
  (0 <= r <= 255)%Z -> (0 <= g <= 255)%Z -> (0 <= b <= 255)%Z ->
  r <> g -> g <> b -> r <> b ->
  in_hue_range (fst (fst (rgbToHsl (Number r) (Number g) (Number b)))) = true.
Proof.
  intros Hr Hg Hb Hrg Hgb Hrb.
  destruct (Z.lt_ge_cases r g), (Z.lt_ge_cases g b), (Z.lt_ge_cases r b);
    try lia.
  - (* r < g < b *) hue_order r g b b g r.
  - (* r < b < g *) hue_order r g b g b r.
  - (* b < r < g *) hue_order r g b g r b.
  - (* g < r < b *) hue_order r g b b r g.
  - (* g < b < r *) hue_order r g b r b g.
  - (* b < g < r *) hue_order r g b r g b.
Qed.

(** X14: for 8-bit channels, the hue that [rgbToHsl] returns is at least
    0 and below 1. *)
Theorem rgbToHsl_hue_in_range (r g b : Z) :
  (0 <= r <= 255)%Z -> (0 <= g <= 255)%Z -> (0 <= b <= 255)%Z ->
  forall h s l,
    rgbToHsl (Number r) (Number g) (Number b) = (h, s, l) ->
    (0 <=? h) = true /\ (h <? 1) = true.
Proof.
  intros Hr Hg Hb h s l E.
  assert (in_hue_range (fst (fst (rgbToHsl (Number r) (Number g) (Number b))))
          = true) as Hrange.
  { destruct (Z.eq_dec r g) as [<- | Hrg];
      [exact (proj1 (tied_hue_range r b Hr Hb)) |].
    destruct (Z.eq_dec g b) as [<- | Hgb];
      [exact (proj2 (proj2 (tied_hue_range g r Hg Hr))) |].
    destruct (Z.eq_dec r b) as [<- | Hrb];
      [exact (proj1 (proj2 (tied_hue_range r g Hr Hg))) |].
    now apply strict_hue_range. }
  rewrite E in Hrange. cbn [fst] in Hrange.
  now apply andb_prop in Hrange.
Qed.

Lemma rgbToHsl_hue_in_range_blue :
  (0 <=? 0.60338680926916222) = true /\ (0.60338680926916222 <? 1) = true.
Proof.
  exact (rgbToHsl_hue_in_range 59 130 246 ltac:(lia) ltac:(lia) ltac:(lia)
           _ _ _ eq_refl).
Defined.

End HueFacts.
